(** * Matchers, event filter and API client of the issue-event tooling

    A shallow embedding of

    - package [matchers] (mungegithub/mungers/matchers/matchers.go): the
      three-shape leaf matchers;
    - package [event]: the single-shape matchers, their combinators and
      [FindEvent];
    - package [main]: the paginated client, [FetchIssues] and
      [FetchIssueEvents].

    Go pointers are [option]s, a nil dereference is the outcome [Panic],
    slices keep the difference between nil and empty, and the hosting
    service is an oracle indexed by the number of requests made so far.
    Of the Go library, [strings.ToLower] and [strings.TrimSpace] are
    written out for ASCII strings and take their Unicode part as a
    parameter; a [time.Duration] saturates as the library's does. *)

From Stdlib Require Import List String Ascii ZArith Bool Lia Permutation.
Import ListNotations.

Local Open Scope string_scope.
Local Open Scope list_scope.
Local Open Scope Z_scope.

Set Implicit Arguments.

(* ================================================================= *)
(** ** Go run-time: outcomes of an evaluation that may panic *)

Module Go.

Inductive Outcome (A : Type) : Type :=
| Returned (a : A)
| Panic.
Arguments Returned {A} a.
Arguments Panic {A}.

Definition ret {A} (a : A) : Outcome A := Returned a.

Definition bind {A B} (c : Outcome A) (k : A -> Outcome B) : Outcome B :=
  match c with
  | Returned a => k a
  | Panic => Panic
  end.

(** [*p]: dereferencing a nil pointer panics. *)
Definition deref {A} (p : option A) : Outcome A :=
  match p with
  | Some a => Returned a
  | None => Panic
  end.

(** [p == nil] and [p != nil]. *)
Definition isNil {A} (p : option A) : bool :=
  match p with
  | Some _ => false
  | None => true
  end.

Definition notNil {A} (p : option A) : bool := negb (isNil p).

(** Short-circuit [||] and [&&]: the right operand is evaluated only
    when the left one does not decide the result. *)
Definition orElse (a b : Outcome bool) : Outcome bool :=
  bind a (fun x => if x then ret true else b).

Definition andAlso (a b : Outcome bool) : Outcome bool :=
  bind a (fun x => if x then b else ret false).

Definition returns {A} (c : Outcome A) : Prop := exists a, c = Returned a.

(** The boolean view used where a result is filtered on: only a
    returned [true] counts. *)
Definition holds (c : Outcome bool) : bool :=
  match c with
  | Returned true => true
  | _ => false
  end.

(** A slice is nil or has a backing sequence; [[]T{}] is [Some []]. *)
Definition Slice (A : Type) : Type := option (list A).

Definition elems {A} (s : Slice A) : list A :=
  match s with
  | Some l => l
  | None => []
  end.

(** [append(s, xs...)]: appending nothing gives [s] back, so a nil
    slice stays nil; appending something gives a non-nil slice. *)
Definition append {A} (s : Slice A) (xs : list A) : Slice A :=
  match xs with
  | [] => s
  | _ :: _ => Some (elems s ++ xs)
  end.

End Go.

Import Go.

Declare Scope go_scope.
Delimit Scope go_scope with go.
Notation "x <- c ;; k" := (bind c (fun x => k))
  (at level 61, c at next level, right associativity) : go_scope.
Notation "a '|||' b" := (orElse a b)
  (at level 50, left associativity) : go_scope.
Notation "a '&&&' b" := (andAlso a b)
  (at level 40, left associativity) : go_scope.
Local Open Scope go_scope.

(* ================================================================= *)
(** ** Go standard library: package [strings] and package [time] *)

Module strings.

(** Go strings are byte sequences; a string is ASCII when every byte is
    below [utf8.RuneSelf], that is 128. *)
Fixpoint isASCII (s : string) : bool :=
  match s with
  | EmptyString => true
  | String c s' => (Nat.ltb (nat_of_ascii c) 128 && isASCII s')%bool
  end.

(** The byte fold of [strings.ToLower]: the letters 'A'..'Z' move to
    'a'..'z', every other byte is kept. *)
Definition lowerByte (c : ascii) : ascii :=
  let n := nat_of_ascii c in
  if (Nat.leb 65 n && Nat.leb n 90)%bool then ascii_of_nat (n + 32) else c.

Fixpoint lowerASCII (s : string) : string :=
  match s with
  | EmptyString => EmptyString
  | String c s' => String (lowerByte c) (lowerASCII s')
  end.

(** [strings.ToLower(s)].  On an ASCII string the library folds the
    bytes itself.  On any other string it returns
    [Map(unicode.ToLower, s)], which goes by the library's Unicode
    tables; that mapping is the parameter [mapLower], and nothing is
    assumed of it here. *)
Definition ToLower (mapLower : string -> string) (s : string) : string :=
  if isASCII s then lowerASCII s else mapLower s.

(** [strings.HasPrefix(s, prefix)]. *)
Definition HasPrefix (s p : string) : bool := String.prefix p s.

(** The ASCII white space, [asciiSpace] of the library: tab, line
    feed, vertical tab, form feed, carriage return and space. *)
Definition isSpace (c : ascii) : bool :=
  let n := nat_of_ascii c in
  ((Nat.leb 9 n && Nat.leb n 13) || Nat.eqb n 32)%bool.

Fixpoint trimLeft (s : string) : string :=
  match s with
  | EmptyString => EmptyString
  | String c s' => if isSpace c then trimLeft s' else s
  end.

Fixpoint trimRight (s : string) : string :=
  match s with
  | EmptyString => EmptyString
  | String c s' =>
      match trimRight s' with
      | EmptyString => if isSpace c then EmptyString else String c EmptyString
      | t => String c t
      end
  end.

(** [strings.TrimSpace(s)].  On an ASCII string the white space to trim
    is the ASCII white space.  On any other string the result is that
    of [TrimFunc(s, unicode.IsSpace)], which goes by the library's
    Unicode tables (it also trims U+0085, U+00A0 and others); that
    function is the parameter [trimUnicode], and nothing is assumed of
    it here. *)
Definition TrimSpace (trimUnicode : string -> string) (s : string) : string :=
  if isASCII s then trimRight (trimLeft s) else trimUnicode s.

End strings.

Module time.

(** An instant, in nanoseconds; [After] and [Before] compare instants.
    A [Duration] is a signed 64-bit count of nanoseconds. *)
Definition Time : Type := Z.
Definition Duration : Type := Z.

Definition Second : Duration := 1000000000.
Definition Minute : Duration := 60 * Second.

Definition minDuration : Duration := - 9223372036854775808.
Definition maxDuration : Duration := 9223372036854775807.

Definition After (t u : Time) : bool := u <? t.
Definition Before (t u : Time) : bool := t <? u.

(** [t.Sub(u)]: the difference, or the smallest or largest [Duration]
    when the difference does not fit. *)
Definition Sub (t u : Time) : Duration :=
  Z.max minDuration (Z.min maxDuration (t - u)).

End time.

(* ================================================================= *)
(** ** Records of the service (package [github]) *)

Module github.

Record User : Type := {
  Login : option string
}.

Record Label : Type := {
  Name : option string
}.

Record IssueEvent : Type := {
  ID : option Z;
  Actor : option User;
  Event : option string;
  CreatedAt : option time.Time;
  EventLabel : option Label      (* field [Label] *)
}.

Record IssueComment : Type := {
  CommentID : option Z;
  CommentUser : option User;             (* field [User] *)
  CommentCreatedAt : option time.Time    (* field [CreatedAt] *)
}.

Record PullRequestComment : Type := {
  ReviewID : option Z;
  ReviewUser : option User;              (* field [User] *)
  ReviewCreatedAt : option time.Time     (* field [CreatedAt] *)
}.

Record Issue : Type := {
  Number : option Z;
  UpdatedAt : option time.Time;
  State : option string;
  Labels : list Label
}.

End github.

Import github.

(** [p.f] through a pointer [p]: the pointer is dereferenced first. *)
Definition field {A B} (p : option A) (f : A -> B) : Outcome B :=
  x <- deref p ;; ret (f x).

(* ================================================================= *)
(** ** Package [matchers]: one test per record shape *)

Module matchers.

(** The interface [Matcher]: three methods, one per shape. *)
Record Matcher : Type := {
  MatchEvent : option IssueEvent -> Outcome bool;
  MatchComment : option IssueComment -> Outcome bool;
  MatchReviewComment : option PullRequestComment -> Outcome bool
}.

(** *** [CreatedAfter] *)

Definition CreatedAfter_MatchComment (c : time.Time)
    (comment : option IssueComment) : Outcome bool :=
  g <- (ret (isNil comment)
        ||| (t <- field comment CommentCreatedAt ;; ret (isNil t))) ;;
  if g then ret false
  else
    p <- field comment CommentCreatedAt ;;
    t <- deref p ;;
    ret (time.After t c).

Definition CreatedAfter_MatchEvent (c : time.Time)
    (event : option IssueEvent) : Outcome bool :=
  g <- (ret (isNil event)
        ||| (t <- field event CreatedAt ;; ret (isNil t))) ;;
  if g then ret false
  else
    p <- field event CreatedAt ;;
    t <- deref p ;;
    ret (time.After t c).

Definition CreatedAfter_MatchReviewComment (c : time.Time)
    (review : option PullRequestComment) : Outcome bool :=
  g <- (ret (isNil review)
        ||| (t <- field review ReviewCreatedAt ;; ret (isNil t))) ;;
  if g then ret false
  else
    p <- field review ReviewCreatedAt ;;
    t <- deref p ;;
    ret (time.After t c).

Definition CreatedAfter (c : time.Time) : Matcher := {|
  MatchEvent := CreatedAfter_MatchEvent c;
  MatchComment := CreatedAfter_MatchComment c;
  MatchReviewComment := CreatedAfter_MatchReviewComment c
|}.

(** *** [CreatedBefore] *)

Definition CreatedBefore_MatchComment (c : time.Time)
    (comment : option IssueComment) : Outcome bool :=
  g <- (ret (isNil comment)
        ||| (t <- field comment CommentCreatedAt ;; ret (isNil t))) ;;
  if g then ret false
  else
    p <- field comment CommentCreatedAt ;;
    t <- deref p ;;
    ret (time.Before t c).

Definition CreatedBefore_MatchEvent (c : time.Time)
    (event : option IssueEvent) : Outcome bool :=
  g <- (ret (isNil event)
        ||| (t <- field event CreatedAt ;; ret (isNil t))) ;;
  if g then ret false
  else
    p <- field event CreatedAt ;;
    t <- deref p ;;
    ret (time.Before t c).

Definition CreatedBefore_MatchReviewComment (c : time.Time)
    (review : option PullRequestComment) : Outcome bool :=
  g <- (ret (isNil review)
        ||| (t <- field review ReviewCreatedAt ;; ret (isNil t))) ;;
  if g then ret false
  else
    p <- field review ReviewCreatedAt ;;
    t <- deref p ;;
    ret (time.Before t c).

Definition CreatedBefore (c : time.Time) : Matcher := {|
  MatchEvent := CreatedBefore_MatchEvent c;
  MatchComment := CreatedBefore_MatchComment c;
  MatchReviewComment := CreatedBefore_MatchReviewComment c
|}.

(** *** [ValidAuthor] *)

Definition ValidAuthor_MatchEvent (event : option IssueEvent) : Outcome bool :=
  ret (notNil event)
  &&& (a <- field event Actor ;; ret (notNil a))
  &&& (a <- field event Actor ;; l <- field a Login ;; ret (notNil l)).

Definition ValidAuthor_MatchComment (comment : option IssueComment)
    : Outcome bool :=
  ret (notNil comment)
  &&& (u <- field comment CommentUser ;; ret (notNil u))
  &&& (u <- field comment CommentUser ;; l <- field u Login ;; ret (notNil l)).

Definition ValidAuthor_MatchReviewComment (review : option PullRequestComment)
    : Outcome bool :=
  ret (notNil review)
  &&& (u <- field review ReviewUser ;; ret (notNil u))
  &&& (u <- field review ReviewUser ;; l <- field u Login ;; ret (notNil l)).

Definition ValidAuthor : Matcher := {|
  MatchEvent := ValidAuthor_MatchEvent;
  MatchComment := ValidAuthor_MatchComment;
  MatchReviewComment := ValidAuthor_MatchReviewComment
|}.

(** *** [AuthorLogin]

    [mapLower] is the Unicode part of [strings.ToLower]. *)

Definition AuthorLogin_MatchEvent (mapLower : string -> string) (a : string)
    (event : option IssueEvent) : Outcome bool :=
  v <- MatchEvent ValidAuthor event ;;
  if negb v then ret false
  else
    u <- field event Actor ;;
    p <- field u Login ;;
    l <- deref p ;;
    ret (String.eqb (strings.ToLower mapLower l)
                    (strings.ToLower mapLower a)).

Definition AuthorLogin_MatchComment (mapLower : string -> string)
    (a : string) (comment : option IssueComment) : Outcome bool :=
  v <- MatchComment ValidAuthor comment ;;
  if negb v then ret false
  else
    u <- field comment CommentUser ;;
    p <- field u Login ;;
    l <- deref p ;;
    ret (String.eqb (strings.ToLower mapLower l)
                    (strings.ToLower mapLower a)).

Definition AuthorLogin_MatchReviewComment (mapLower : string -> string)
    (a : string) (review : option PullRequestComment) : Outcome bool :=
  v <- MatchReviewComment ValidAuthor review ;;
  if negb v then ret false
  else
    u <- field review ReviewUser ;;
    p <- field u Login ;;
    l <- deref p ;;
    ret (String.eqb (strings.ToLower mapLower l)
                    (strings.ToLower mapLower a)).

Definition AuthorLogin (mapLower : string -> string) (a : string)
    : Matcher := {|
  MatchEvent := AuthorLogin_MatchEvent mapLower a;
  MatchComment := AuthorLogin_MatchComment mapLower a;
  MatchReviewComment := AuthorLogin_MatchReviewComment mapLower a
|}.

(** *** [AddLabel] *)

Definition AddLabel_MatchEvent (event : option IssueEvent) : Outcome bool :=
  g <- (ret (isNil event)
        ||| (t <- field event Event ;; ret (isNil t))) ;;
  if g then ret false
  else
    p <- field event Event ;;
    s <- deref p ;;
    ret (String.eqb s "labeled").

Definition AddLabel_MatchComment (comment : option IssueComment)
    : Outcome bool := ret false.

Definition AddLabel_MatchReviewComment (review : option PullRequestComment)
    : Outcome bool := ret false.

Definition AddLabel : Matcher := {|
  MatchEvent := AddLabel_MatchEvent;
  MatchComment := AddLabel_MatchComment;
  MatchReviewComment := AddLabel_MatchReviewComment
|}.

(** *** [LabelPrefix] *)

Definition LabelPrefix_MatchEvent (l : string) (event : option IssueEvent)
    : Outcome bool :=
  g <- (ret (isNil event)
        ||| (lb <- field event EventLabel ;; ret (isNil lb))
        ||| (lb <- field event EventLabel ;; n <- field lb Name ;;
             ret (isNil n))) ;;
  if g then ret false
  else
    lb <- field event EventLabel ;;
    p <- field lb Name ;;
    n <- deref p ;;
    ret (strings.HasPrefix n l).

Definition LabelPrefix_MatchComment (l : string)
    (comment : option IssueComment) : Outcome bool := ret false.

Definition LabelPrefix_MatchReviewComment (l : string)
    (review : option PullRequestComment) : Outcome bool := ret false.

Definition LabelPrefix (l : string) : Matcher := {|
  MatchEvent := LabelPrefix_MatchEvent l;
  MatchComment := LabelPrefix_MatchComment l;
  MatchReviewComment := LabelPrefix_MatchReviewComment l
|}.

(** *** The shape discriminators *)

Definition EventType : Matcher := {|
  MatchEvent := fun _ => ret true;
  MatchComment := fun _ => ret false;
  MatchReviewComment := fun _ => ret false
|}.

Definition CommentType : Matcher := {|
  MatchEvent := fun _ => ret false;
  MatchComment := fun _ => ret true;
  MatchReviewComment := fun _ => ret false
|}.

Definition ReviewCommentType : Matcher := {|
  MatchEvent := fun _ => ret false;
  MatchComment := fun _ => ret false;
  MatchReviewComment := fun _ => ret true
|}.

End matchers.

(* ================================================================= *)
(** ** Package [event]: matchers over events only, and the filter *)

Module event.

(** The interface [Matcher].  A nil interface value is [nilMatcher]:
    calling its method panics. *)
Record Matcher : Type := {
  Match : option IssueEvent -> Outcome bool
}.

Definition nilMatcher : Matcher := {| Match := fun _ => Panic |}.

Fixpoint And_Match (a : list Matcher) (event : option IssueEvent)
    : Outcome bool :=
  match a with
  | [] => ret true
  | matcher :: rest =>
      b <- Match matcher event ;;
      if negb b then ret false else And_Match rest event
  end.

Definition And (a : list Matcher) : Matcher := {| Match := And_Match a |}.

Fixpoint Or_Match (o : list Matcher) (event : option IssueEvent)
    : Outcome bool :=
  match o with
  | [] => ret false
  | matcher :: rest =>
      b <- Match matcher event ;;
      if b then ret true else Or_Match rest event
  end.

Definition Or (o : list Matcher) : Matcher := {| Match := Or_Match o |}.

Definition Not_Match (n : Matcher) (event : option IssueEvent)
    : Outcome bool :=
  b <- Match n event ;; ret (negb b).

Definition Not (n : Matcher) : Matcher := {| Match := Not_Match n |}.

Definition Actor_Match (a : string) (event : option IssueEvent)
    : Outcome bool :=
  g <- ((u <- field event Actor ;; ret (isNil u))
        ||| (u <- field event Actor ;; l <- field u Login ;;
             ret (isNil l))) ;;
  if g then ret false
  else
    u <- field event Actor ;;
    p <- field u Login ;;
    l <- deref p ;;
    ret (String.eqb l a).

Definition Actor (a : string) : Matcher := {| Match := Actor_Match a |}.

Definition AddLabel_Match (a : string) (event : option IssueEvent)
    : Outcome bool :=
  g <- ((lb <- field event EventLabel ;; ret (isNil lb))
        ||| (lb <- field event EventLabel ;; n <- field lb Name ;;
             ret (isNil n))
        ||| (t <- field event Event ;; ret (isNil t))) ;;
  if g then ret false
  else
    (p <- field event Event ;; s <- deref p ;;
     ret (String.eqb s "labeled"))
    ||| (lb <- field event EventLabel ;; p <- field lb Name ;;
         n <- deref p ;; ret (String.eqb n a)).

Definition AddLabel (a : string) : Matcher := {| Match := AddLabel_Match a |}.

Definition CreatedAfter_Match (c : time.Time) (event : option IssueEvent)
    : Outcome bool :=
  p <- field event CreatedAt ;;
  t <- deref p ;;
  ret (time.After t c).

Definition CreatedAfter (c : time.Time) : Matcher :=
  {| Match := CreatedAfter_Match c |}.

Definition CreatedBefore_Match (c : time.Time) (event : option IssueEvent)
    : Outcome bool :=
  p <- field event CreatedAt ;;
  t <- deref p ;;
  ret (time.Before t c).

Definition CreatedBefore (c : time.Time) : Matcher :=
  {| Match := CreatedBefore_Match c |}.

(** [FindEvent]: the loop over [events], with the slice built so far. *)
Fixpoint FindEvent_range (events : list (option IssueEvent))
    (matcher : Matcher) (matchingEvents : Slice (option IssueEvent))
    : Outcome (Slice (option IssueEvent)) :=
  match events with
  | [] => ret matchingEvents
  | event :: rest =>
      b <- Match matcher event ;;
      FindEvent_range rest matcher
        (if b then append matchingEvents [event] else matchingEvents)
  end.

Definition FindEvent (events : Slice (option IssueEvent)) (matcher : Matcher)
    : Outcome (Slice (option IssueEvent)) :=
  FindEvent_range (elems events) matcher (Some []).

End event.

(* ================================================================= *)
(** ** Package [main]: the API client *)

Module main.

Definition error : Type := string.

(** A fallible call of the outside world: [(value, err)] with exactly
    one of the two set. *)
Inductive Result (A : Type) : Type :=
| Ok (a : A)
| Err (err : error).
Arguments Ok {A} a.
Arguments Err {A} err.

(** *** Types of the service library the client uses *)

(** [github.Client]: built over an authenticated transport
    ([Some token]) or over none. *)
Record GithubClient : Type := {
  AccessToken : option string
}.

Definition NewClient (token : option string) : GithubClient :=
  {| AccessToken := token |}.

Record Rate : Type := {
  Limit : Z;
  Remaining : Z;
  Reset : time.Time
}.

Record RateLimits : Type := {
  Core : option Rate;
  Search : option Rate
}.

Record Response : Type := {
  NextPage : Z
}.

Record ListOptions : Type := {
  Page : Z;
  PerPage : Z
}.

Record IssueListByRepoOptions : Type := {
  Since : time.Time;
  Sort : string;
  State : string;
  Direction : string;
  EmbeddedListOptions : ListOptions     (* the embedded [ListOptions] *)
}.

(** [opt.ListOptions.Page = page]. *)
Definition setPage (opt : IssueListByRepoOptions) (page : Z)
    : IssueListByRepoOptions :=
  {| Since := Since opt; Sort := Sort opt; State := State opt;
     Direction := Direction opt;
     EmbeddedListOptions :=
       {| Page := page; PerPage := PerPage (EmbeddedListOptions opt) |} |}.

(** *** The client and the world it runs in *)

Record Client : Type := {
  Token : string;
  TokenFile : string;
  Org : string;
  Project : string;
  githubClient : option GithubClient
}.

Definition tokenLimit : Z := 50.

(** What a run leaves behind, in order. *)
Inductive Effect : Type :=
| PrintIssue (number : Z) (updated : time.Time)
| PrintEventsPage (page : Z)
| LogError (msg : string)
| LogInfo (msg : string) (d : time.Duration)
| Slept (d : time.Duration).

(** The state threaded through a run: the client (a pointer receiver,
    so its memoized handle persists), the clock, how many requests each
    endpoint has answered, and the trace. *)
Record World : Type := {
  self : Client;
  now : time.Time;
  rateCalls : nat;
  issueCalls : nat;
  eventCalls : nat;
  trace : list Effect
}.

(** The outside world.  Each endpoint answers by the number of requests
    it has answered before and by the request itself.  [TrimUnicode] is
    the Unicode part of [strings.TrimSpace], which the Go library
    brings along. *)
Record Service : Type := {
  ReadFile : string -> Result string;
  TrimUnicode : string -> string;
  RateLimitsEndpoint :
    nat -> GithubClient -> option RateLimits * option error;
  ListByRepo :
    nat -> GithubClient -> string -> string -> IssueListByRepoOptions ->
    Result (list Issue * Response);
  ListRepositoryEvents :
    nat -> GithubClient -> string -> string -> ListOptions ->
    Result (list IssueEvent * Response)
}.

(** The result of running a piece of the client: it is done with a
    value and a new world, it panicked, or the steps allowed to a loop
    ran out before the loop ended. *)
Inductive Run (A : Type) : Type :=
| Done (a : A) (w : World)
| Crash
| OutOfFuel.
Arguments Done {A} a w.
Arguments Crash {A}.
Arguments OutOfFuel {A}.

Definition IO (A : Type) : Type := World -> Run A.

Definition pure {A} (a : A) : IO A := fun w => Done a w.

Definition seq {A B} (c : IO A) (k : A -> IO B) : IO B :=
  fun w =>
    match c w with
    | Done a w' => k a w'
    | Crash => Crash
    | OutOfFuel => OutOfFuel
    end.

Definition lift {A} (c : Outcome A) : IO A :=
  fun w =>
    match c with
    | Returned a => Done a w
    | Panic => Crash
    end.

Definition get : IO World := fun w => Done w w.

Definition emit (e : Effect) : IO unit :=
  fun w =>
    Done tt {| self := self w; now := now w; rateCalls := rateCalls w;
               issueCalls := issueCalls w; eventCalls := eventCalls w;
               trace := trace w ++ [e] |}.

(** [time.Sleep(d)]: returns at once when [d] is not positive. *)
Definition Sleep (d : time.Duration) : IO unit :=
  fun w =>
    Done tt {| self := self w; now := now w + Z.max 0 d;
               rateCalls := rateCalls w; issueCalls := issueCalls w;
               eventCalls := eventCalls w;
               trace := trace w ++ [Slept d] |}.

Definition setGithubClient (c : GithubClient) : IO unit :=
  fun w =>
    Done tt {| self := {| Token := Token (self w);
                          TokenFile := TokenFile (self w);
                          Org := Org (self w); Project := Project (self w);
                          githubClient := Some c |};
               now := now w; rateCalls := rateCalls w;
               issueCalls := issueCalls w; eventCalls := eventCalls w;
               trace := trace w |}.

Declare Scope io_scope.
Delimit Scope io_scope with io.
Notation "x <- c ;; k" := (seq c (fun x => k))
  (at level 61, c at next level, right associativity) : io_scope.
Notation "c ;;; k" := (seq c (fun _ => k))
  (at level 61, right associativity) : io_scope.

Section WithService.

Variable svc : Service.

Local Open Scope io_scope.

(** The three endpoints, as calls that advance their counter. *)
Definition callRateLimits (c : GithubClient)
    : IO (option RateLimits * option error) :=
  fun w =>
    Done (RateLimitsEndpoint svc (rateCalls w) c)
         {| self := self w; now := now w; rateCalls := S (rateCalls w);
            issueCalls := issueCalls w; eventCalls := eventCalls w;
            trace := trace w |}.

Definition callListByRepo (c : GithubClient) (org project : string)
    (opt : IssueListByRepoOptions) : IO (Result (list Issue * Response)) :=
  fun w =>
    Done (ListByRepo svc (issueCalls w) c org project opt)
         {| self := self w; now := now w; rateCalls := rateCalls w;
            issueCalls := S (issueCalls w); eventCalls := eventCalls w;
            trace := trace w |}.

Definition callListRepositoryEvents (c : GithubClient) (org project : string)
    (opt : ListOptions) : IO (Result (list IssueEvent * Response)) :=
  fun w =>
    Done (ListRepositoryEvents svc (eventCalls w) c org project opt)
         {| self := self w; now := now w; rateCalls := rateCalls w;
            issueCalls := issueCalls w; eventCalls := S (eventCalls w);
            trace := trace w |}.

(** [getGithubClient]: the memoized handle, or a new one from the
    token, read from the token file when no token is given. *)
Definition getGithubClient : IO (option GithubClient * option error) :=
  w <- get ;;
  let client := self w in
  match githubClient client with
  | Some c => pure (Some c, None)
  | None =>
      let token := Token client in
      match
        (if (Nat.eqb (String.length token) 0
             && negb (Nat.eqb (String.length (TokenFile client)) 0))%bool
         then
           match ReadFile svc (TokenFile client) with
           | Err err => Err err
           | Ok data => Ok (strings.TrimSpace (TrimUnicode svc) data)
           end
         else Ok token)
      with
      | Err err => pure (None, Some err)
      | Ok token =>
          let c := if Nat.ltb 0 (String.length token)
                   then NewClient (Some token)
                   else NewClient None in
          setGithubClient c ;;;
          pure (Some c, None)
      end
  end.

(** [limitsCheckAndWait]: probe the rate limit, then sleep. *)
Definition limitsCheckAndWait : IO unit :=
  let sleep : time.Duration := 0 in
  r <- getGithubClient ;;
  let '(githubClient, err) := r in
  sleep <-
    match err with
    | Some _ =>
        emit (LogError "Failed to get RateLimits: %v") ;;;
        pure time.Minute
    | None =>
        c <- lift (deref githubClient) ;;
        r <- callRateLimits c ;;
        let '(limits, err) := r in
        sleep <-
          match err with
          | Some _ =>
              emit (LogError "Failed to get RateLimits: %v") ;;;
              pure time.Minute
          | None => pure sleep
          end ;;
        below <- lift (ret (notNil limits)
                       &&& (core <- field limits Core ;; ret (notNil core))
                       &&& (core <- field limits Core ;;
                            rem <- field core Remaining ;;
                            ret (rem <? tokenLimit)))%go ;;
        if below then
          w <- get ;;
          core <- lift (field limits Core) ;;
          reset <- lift (field core Reset) ;;
          let sleep := time.Sub reset (now w) in
          emit (LogInfo "RateLimits: reached. Sleeping for %v" sleep) ;;;
          pure sleep
        else pure sleep
    end ;;
  Sleep sleep.

(** The progress lines of [FetchIssues]: both fields are dereferenced. *)
Fixpoint printIssues (issues : list Issue) : IO unit :=
  match issues with
  | [] => pure tt
  | issue :: rest =>
      number <- lift (deref (Number issue)) ;;
      updated <- lift (deref (UpdatedAt issue)) ;;
      emit (PrintIssue number updated) ;;;
      printIssues rest
  end.

(** The [for] loop of [FetchIssues]; one unit of [fuel] per iteration. *)
Fixpoint FetchIssues_loop (fuel : nat) (githubClient : option GithubClient)
    (allIssues : Slice Issue) (opt : IssueListByRepoOptions)
    : IO (Slice Issue * option error) :=
  match fuel with
  | O => fun _ => OutOfFuel
  | S fuel' =>
      limitsCheckAndWait ;;;
      c <- lift (deref githubClient) ;;
      w <- get ;;
      r <- callListByRepo c (Org (self w)) (Project (self w)) opt ;;
      match r with
      | Err err => pure (None, Some err)
      | Ok (issues, resp) =>
          printIssues issues ;;;
          let allIssues := append allIssues issues in
          if NextPage resp =? 0 then pure (allIssues, None)
          else FetchIssues_loop fuel' githubClient allIssues
                 (setPage opt (NextPage resp))
      end
  end.

(** [FetchIssues]: from GitHub, until [latest] time. *)
Definition FetchIssues (fuel : nat) (latest : time.Time)
    : IO (Slice Issue * option error) :=
  let allIssues : Slice Issue := None in
  let opt := {| Since := latest; Sort := "updated"; State := "all";
                Direction := "asc";
                EmbeddedListOptions := {| Page := 0; PerPage := 0 |} |} in
  r <- getGithubClient ;;
  let '(githubClient, err) := r in
  match err with
  | Some err => pure (None, Some err)
  | None => FetchIssues_loop fuel githubClient allIssues opt
  end.

(** [wasIdFound]: look for a specific id in a list of events. *)
Fixpoint wasIdFound (events : list IssueEvent) (id : Z) : Outcome bool :=
  match events with
  | [] => ret false
  | event :: rest =>
      (i <- deref (ID event) ;;
       if i =? id then ret true else wasIdFound rest id)%go
  end.

(** The [for] loop of [FetchIssueEvents].  After the termination check
    comes a second [break]; the assignment [opt.Page = resp.NextPage]
    behind it is never reached. *)
Fixpoint FetchIssueEvents_loop (fuel : nat)
    (githubClient : option GithubClient) (latest : option Z)
    (allEvents : Slice IssueEvent) (opt : ListOptions)
    : IO (Slice IssueEvent * option error) :=
  match fuel with
  | O => fun _ => OutOfFuel
  | S fuel' =>
      limitsCheckAndWait ;;;
      emit (PrintEventsPage (Page opt)) ;;;
      c <- lift (deref githubClient) ;;
      w <- get ;;
      r <- callListRepositoryEvents c (Org (self w)) (Project (self w)) opt ;;
      match r with
      | Err _ =>
          emit (LogError "Request failed. Wait before trying again.") ;;;
          Sleep time.Second ;;;
          FetchIssueEvents_loop fuel' githubClient latest allEvents opt
      | Ok (events, resp) =>
          let allEvents := append allEvents events in
          stop <- lift (ret (NextPage resp =? 0)
                        ||| (ret (notNil latest)
                             &&& (id <- deref latest ;;
                                  wasIdFound events id)))%go ;;
          if stop then pure (allEvents, None)
          else pure (allEvents, None)
      end
  end.

(** [FetchIssueEvents]: from github, until it matches [latest]. *)
Definition FetchIssueEvents (fuel : nat) (latest : option Z)
    : IO (Slice IssueEvent * option error) :=
  let allEvents : Slice IssueEvent := None in
  let opt := {| Page := 0; PerPage := 100 |} in
  r <- getGithubClient ;;
  let '(githubClient, err) := r in
  match err with
  | Some err => pure (None, Some err)
  | None => FetchIssueEvents_loop fuel githubClient latest allEvents opt
  end.

End WithService.

End main.

(* ================================================================= *)
(** ** Vocabulary of the statements *)

(** [decides c P]: the evaluation [c] returns a boolean (it does not
    panic), and that boolean is [true] exactly when [P] holds. *)
Definition decides (c : Outcome bool) (P : Prop) : Prop :=
  exists b, c = Returned b /\ (b = true <-> P).

(** Case-insensitive equality, stated on its own: two bytes are the
    same letter when they are equal or when one is an upper-case letter
    and the other is the lower-case letter 32 code points above it; two
    strings are equal ignoring case when they have the same length and
    are the same letter at every position. *)
Definition isUpper (c : ascii) : bool :=
  (Nat.leb 65 (nat_of_ascii c) && Nat.leb (nat_of_ascii c) 90)%bool.

Definition sameLetter (a b : ascii) : bool :=
  (Ascii.eqb a b
   || (isUpper a && Nat.eqb (nat_of_ascii b) (nat_of_ascii a + 32))
   || (isUpper b && Nat.eqb (nat_of_ascii a) (nat_of_ascii b + 32)))%bool.

Fixpoint equalIgnoringCase (s t : string) : bool :=
  match s, t with
  | EmptyString, EmptyString => true
  | String a s', String b t' => (sameLetter a b && equalIgnoringCase s' t')%bool
  | _, _ => false
  end.

(** What the statements ask of the Unicode part of [strings.ToLower]
    where they speak of strings that are not ASCII: two strings that
    differ only in the case of ASCII letters are mapped to the same
    string.  (Such strings have the same runes but for those letters,
    which the mapping lower-cases one by one.) *)
Definition foldsASCIICase (mapLower : string -> string) : Prop :=
  forall s t, equalIgnoringCase s t = true -> mapLower s = mapLower t.

(** White space all through; and a first, a last byte that is none. *)
Fixpoint allSpace (s : string) : bool :=
  match s with
  | EmptyString => true
  | String c s' => (strings.isSpace c && allSpace s')%bool
  end.

Definition startsWithNonSpace (s : string) : bool :=
  match s with
  | EmptyString => false
  | String c _ => negb (strings.isSpace c)
  end.

Fixpoint endsWithNonSpace (s : string) : bool :=
  match s with
  | EmptyString => false
  | String c EmptyString => negb (strings.isSpace c)
  | String _ s' => endsWithNonSpace s'
  end.

(** The login behind an author reference, when both are there. *)
Definition loginOf (u : option User) : option string :=
  match u with
  | Some u => Login u
  | None => None
  end.

(** The fields the matchers look at, through the record pointer. *)
Definition eventAuthor (e : option IssueEvent) : option string :=
  match e with Some ev => loginOf (Actor ev) | None => None end.

Definition commentAuthor (c : option IssueComment) : option string :=
  match c with Some cm => loginOf (CommentUser cm) | None => None end.

Definition reviewAuthor (r : option PullRequestComment) : option string :=
  match r with Some rv => loginOf (ReviewUser rv) | None => None end.

Definition eventCreated (e : option IssueEvent) : option time.Time :=
  match e with Some ev => CreatedAt ev | None => None end.

Definition commentCreated (c : option IssueComment) : option time.Time :=
  match c with Some cm => CommentCreatedAt cm | None => None end.

Definition reviewCreated (r : option PullRequestComment)
    : option time.Time :=
  match r with Some rv => ReviewCreatedAt rv | None => None end.

Definition eventType (e : option IssueEvent) : option string :=
  match e with Some ev => Event ev | None => None end.

Definition eventLabelName (e : option IssueEvent) : option string :=
  match e with
  | Some ev => match EventLabel ev with Some lb => Name lb | None => None end
  | None => None
  end.

(** The leaf matchers of package [matchers], by kind. *)
Inductive Leaf : Type :=
| LeafCreatedAfter (c : time.Time)
| LeafCreatedBefore (c : time.Time)
| LeafValidAuthor
| LeafAuthorLogin (a : string)
| LeafAddLabel
| LeafLabelPrefix (l : string)
| LeafEventType
| LeafCommentType
| LeafReviewCommentType.

Definition leafMatcher (mapLower : string -> string) (k : Leaf)
    : matchers.Matcher :=
  match k with
  | LeafCreatedAfter c => matchers.CreatedAfter c
  | LeafCreatedBefore c => matchers.CreatedBefore c
  | LeafValidAuthor => matchers.ValidAuthor
  | LeafAuthorLogin a => matchers.AuthorLogin mapLower a
  | LeafAddLabel => matchers.AddLabel
  | LeafLabelPrefix l => matchers.LabelPrefix l
  | LeafEventType => matchers.EventType
  | LeafCommentType => matchers.CommentType
  | LeafReviewCommentType => matchers.ReviewCommentType
  end.

(** Two matchers with the same outcome on every record of every
    shape. *)
Definition sameMatcher (m m' : matchers.Matcher) : Prop :=
  (forall e, matchers.MatchEvent m e = matchers.MatchEvent m' e)
  /\ (forall c, matchers.MatchComment m c = matchers.MatchComment m' c)
  /\ (forall r,
         matchers.MatchReviewComment m r = matchers.MatchReviewComment m' r).

(** The shape discriminators look at no field of the record. *)
Definition isDiscriminator (k : Leaf) : bool :=
  match k with
  | LeafEventType | LeafCommentType | LeafReviewCommentType => true
  | _ => false
  end.

(** "The record, or a field the matcher inspects, is nil", per shape.
    A matcher that inspects no field of the shape has only the record
    itself to miss. *)
Definition missingInEvent (k : Leaf) (e : option IssueEvent) : bool :=
  match k with
  | LeafCreatedAfter _ | LeafCreatedBefore _ => isNil (eventCreated e)
  | LeafValidAuthor | LeafAuthorLogin _ => isNil (eventAuthor e)
  | LeafAddLabel => isNil (eventType e)
  | LeafLabelPrefix _ => isNil (eventLabelName e)
  | LeafEventType | LeafCommentType | LeafReviewCommentType => isNil e
  end.

Definition missingInComment (k : Leaf) (c : option IssueComment) : bool :=
  match k with
  | LeafCreatedAfter _ | LeafCreatedBefore _ => isNil (commentCreated c)
  | LeafValidAuthor | LeafAuthorLogin _ => isNil (commentAuthor c)
  | _ => isNil c
  end.

Definition missingInReview (k : Leaf) (r : option PullRequestComment)
    : bool :=
  match k with
  | LeafCreatedAfter _ | LeafCreatedBefore _ => isNil (reviewCreated r)
  | LeafValidAuthor | LeafAuthorLogin _ => isNil (reviewAuthor r)
  | _ => isNil r
  end.

(** The leaf matchers of package [event], by kind, and what each
    inspects. *)
Inductive EventLeaf : Type :=
| EventLeafActor (a : string)
| EventLeafAddLabel (a : string)
| EventLeafCreatedAfter (c : time.Time)
| EventLeafCreatedBefore (c : time.Time).

Definition eventLeafMatcher (k : EventLeaf) : event.Matcher :=
  match k with
  | EventLeafActor a => event.Actor a
  | EventLeafAddLabel a => event.AddLabel a
  | EventLeafCreatedAfter c => event.CreatedAfter c
  | EventLeafCreatedBefore c => event.CreatedBefore c
  end.

Definition missingForEventLeaf (k : EventLeaf) (e : option IssueEvent)
    : bool :=
  match k with
  | EventLeafActor _ => isNil (eventAuthor e)
  | EventLeafAddLabel _ =>
      (isNil (eventLabelName e) || isNil (eventType e))%bool
  | EventLeafCreatedAfter _ | EventLeafCreatedBefore _ =>
      isNil (eventCreated e)
  end.

(** *** The client's surroundings *)

Import main.

(** An issue whose progress line can be printed. *)
Definition printable (issue : Issue) : Prop :=
  Number issue <> None /\ UpdatedAt issue <> None.

(** Starting with request number [n] on options [opt], [k] page
    requests of the issue listing succeed, each announcing a next page
    that the following request asks for, and the request after them
    fails with [err]. *)
Fixpoint issuesFailAfter (svc : Service) (c : GithubClient)
    (org project : string) (k n : nat) (opt : IssueListByRepoOptions)
    (err : error) : Prop :=
  match k with
  | O => ListByRepo svc n c org project opt = Err err
  | S k' =>
      exists issues resp,
        ListByRepo svc n c org project opt = Ok (issues, resp)
        /\ Forall printable issues
        /\ NextPage resp <> 0
        /\ issuesFailAfter svc c org project k' (S n)
             (setPage opt (NextPage resp)) err
  end.

(** Starting with request number [n], the event listing fails [k]
    times on [opt] and then answers with the page [events], [resp]. *)
Definition eventsPageAfter (svc : Service) (c : GithubClient)
    (org project : string) (opt : ListOptions) (n k : nat)
    (events : list IssueEvent) (resp : Response) : Prop :=
  (forall j, (j < k)%nat ->
      exists err,
        ListRepositoryEvents svc (n + j) c org project opt = Err err)
  /\ ListRepositoryEvents svc (n + k) c org project opt = Ok (events, resp).

(** The options [FetchIssues] and [FetchIssueEvents] start from. *)
Definition issuesOptions (latest : time.Time) : IssueListByRepoOptions :=
  {| Since := latest; Sort := "updated"; State := "all"; Direction := "asc";
     EmbeddedListOptions := {| Page := 0; PerPage := 0 |} |}.

Definition eventsOptions : ListOptions := {| Page := 0; PerPage := 100 |}.

(** [w'] differs from [w] at most in the clock, the rate-limit probes
    and the trace: same client, same listing requests answered. *)
Definition undisturbed (w w' : World) : Prop :=
  self w' = self w
  /\ issueCalls w' = issueCalls w
  /\ eventCalls w' = eventCalls w.

(** *** A small service and a fresh client, for the examples

    The client holds the token "t".  The rate-limit probe reports
    plenty of quota.  The issue listing answers its first request with
    one issue and announces page 2, and fails from then on.  The event
    listing fails once and then answers with two events, announcing
    page 2. *)
Definition exampleIssue : Issue :=
  {| Number := Some 12; UpdatedAt := Some 100; github.State := Some "open";
     Labels := [] |}.

Definition exampleEvent (id : Z) : IssueEvent :=
  {| ID := Some id; Actor := Some {| Login := Some "bob" |};
     Event := Some "labeled"; CreatedAt := Some 100;
     EventLabel := Some {| Name := Some "kind/bug" |} |}.

Definition exampleService : Service :=
  {| ReadFile := fun _ => Err "no such file";
     TrimUnicode := fun s => s;
     RateLimitsEndpoint := fun _ _ =>
       (Some {| Core := Some {| Limit := 5000; Remaining := 4000;
                                Reset := 3600 * time.Second |};
                Search := None |}, None);
     ListByRepo := fun n _ _ _ _ =>
       match n with
       | O => Ok ([exampleIssue], {| NextPage := 2 |})
       | S _ => Err "connection reset"
       end;
     ListRepositoryEvents := fun n _ _ _ _ =>
       match n with
       | O => Err "timeout"
       | S _ => Ok ([exampleEvent 41; exampleEvent 42], {| NextPage := 2 |})
       end |}.

Definition exampleWorld : World :=
  {| self := {| Token := "t"; TokenFile := ""; Org := "kubernetes";
                Project := "kubernetes"; githubClient := None |};
     now := 0; rateCalls := 0; issueCalls := 0; eventCalls := 0;
     trace := [] |}.

(** Starting with request number [n] on options [opt], the issue
    listing answers with [pages], one request each: every page but the
    last announces a next page, which the following request asks for,
    and the last one announces none. *)
Fixpoint issuesSucceed (svc : Service) (c : GithubClient)
    (org project : string) (n : nat) (opt : IssueListByRepoOptions)
    (pages : list (list Issue)) : Prop :=
  match pages with
  | [] => False
  | page :: rest =>
      exists resp,
        ListByRepo svc n c org project opt = Ok (page, resp)
        /\ Forall printable page
        /\ match rest with
           | [] => NextPage resp = 0
           | _ :: _ =>
               NextPage resp <> 0
               /\ issuesSucceed svc c org project (S n)
                    (setPage opt (NextPage resp)) rest
           end
  end.

(** The event listing fails on every request. *)
Definition eventsAlwaysFail (svc : Service) (c : GithubClient)
    (org project : string) (opt : ListOptions) : Prop :=
  forall n, exists err,
    ListRepositoryEvents svc n c org project opt = Err err.

(** The rate-limit probe never gives cause to wait: it reports no
    error, and a quota of at least [tokenLimit] where it reports one. *)
Definition quietProbes (svc : Service) (c : GithubClient) : Prop :=
  forall n, exists limits,
    RateLimitsEndpoint svc n c = (limits, None)
    /\ forall l core, limits = Some l -> Core l = Some core ->
                      tokenLimit <= Remaining core.

(** *** A second service and a client configured by token file

    The token file holds white space only.  The rate-limit probe
    reports 10 requests left until second 500.  The issue listing
    answers by the page asked for: the first page holds one issue and
    announces page 2, page 2 holds two issues and announces no further
    page.  The event listing is down. *)
Definition secondIssue (number : Z) : Issue :=
  {| Number := Some number; UpdatedAt := Some 200;
     github.State := Some "closed"; Labels := [] |}.

Definition pagedService : Service :=
  {| ReadFile := fun _ => Ok "  
	 ";
     TrimUnicode := fun s => s;
     RateLimitsEndpoint := fun _ _ =>
       (Some {| Core := Some {| Limit := 5000; Remaining := 10;
                                Reset := 500 * time.Second |};
                Search := None |}, None);
     ListByRepo := fun _ _ _ _ opt =>
       match Page (EmbeddedListOptions opt) with
       | 0 => Ok ([exampleIssue], {| NextPage := 2 |})
       | 2 => Ok ([secondIssue 13; secondIssue 14], {| NextPage := 0 |})
       | _ => Err "no such page"
       end;
     ListRepositoryEvents := fun _ _ _ _ _ => Err "unavailable" |}.

Definition fileWorld : World :=
  {| self := {| Token := ""; TokenFile := "/etc/token"; Org := "kubernetes";
                Project := "contrib"; githubClient := None |};
     now := 0; rateCalls := 0; issueCalls := 0; eventCalls := 0;
     trace := [] |}.

(* ================================================================= *)
(** ** Case folding *)

Section CaseFolding.

Let lowerCode (n : nat) : nat :=
  if (Nat.leb 65 n && Nat.leb n 90)%bool then (n + 32)%nat else n.

Lemma nat_of_lowerByte c :
  nat_of_ascii (strings.lowerByte c) = lowerCode (nat_of_ascii c).
Proof.
  unfold strings.lowerByte, lowerCode.
  destruct (Nat.leb 65 (nat_of_ascii c) && Nat.leb (nat_of_ascii c) 90)%bool
    eqn:E; [|reflexivity].
  apply andb_true_iff in E as [_ E]. apply Nat.leb_le in E.
  apply nat_ascii_embedding. lia.
Qed.

Lemma ascii_eqb_nat a b :
  Ascii.eqb a b = Nat.eqb (nat_of_ascii a) (nat_of_ascii b).
Proof.
  destruct (Ascii.eqb_spec a b) as [->|N].
  - symmetry. apply Nat.eqb_refl.
  - symmetry. apply Nat.eqb_neq. intros E. apply N.
    rewrite <- (ascii_nat_embedding a), <- (ascii_nat_embedding b).
    now rewrite E.
Qed.

Lemma lowerByte_sameLetter a b :
  Ascii.eqb (strings.lowerByte a) (strings.lowerByte b) = sameLetter a b.
Proof.
  unfold sameLetter, isUpper.
  rewrite !ascii_eqb_nat, !nat_of_lowerByte. unfold lowerCode.
  generalize (nat_of_ascii a) (nat_of_ascii b). intros n m.
  destruct (Nat.leb_spec 65 n), (Nat.leb_spec n 90),
           (Nat.leb_spec 65 m), (Nat.leb_spec m 90); cbn [andb orb];
    repeat match goal with
           | |- context [Nat.eqb ?x ?y] => destruct (Nat.eqb_spec x y)
           end; cbn [andb orb]; try reflexivity; lia.
Qed.

(** Comparing the byte-folded strings is comparing ignoring case. *)
Lemma lowerASCII_eqb_equalIgnoringCase s t :
  String.eqb (strings.lowerASCII s) (strings.lowerASCII t)
  = equalIgnoringCase s t.
Proof.
  revert t. induction s as [|a s IH]; intros [|b t]; cbn; try reflexivity.
  rewrite lowerByte_sameLetter, IH.
  destruct (sameLetter a b); reflexivity.
Qed.

Lemma sameLetter_below_128 a b :
  sameLetter a b = true ->
  Nat.ltb (nat_of_ascii a) 128 = Nat.ltb (nat_of_ascii b) 128.
Proof.
  unfold sameLetter, isUpper. rewrite ascii_eqb_nat.
  generalize (nat_of_ascii a) (nat_of_ascii b). intros n m H.
  destruct (Nat.ltb_spec n 128), (Nat.ltb_spec m 128); try reflexivity;
    exfalso;
    repeat match type of H with
           | context [Nat.eqb ?x ?y] => destruct (Nat.eqb_spec x y)
           | context [Nat.leb ?x ?y] => destruct (Nat.leb_spec x y)
           end; cbn in H; try discriminate; lia.
Qed.

(** Strings that differ only in the case of ASCII letters are both
    ASCII or both not. *)
Lemma equalIgnoringCase_isASCII s t :
  equalIgnoringCase s t = true -> strings.isASCII s = strings.isASCII t.
Proof.
  revert t. induction s as [|a s IH]; intros [|b t];
    cbn [strings.isASCII equalIgnoringCase];
    try reflexivity; try discriminate.
  intros H. apply andb_true_iff in H as [Hl Hr].
  now rewrite (@sameLetter_below_128 a b Hl), (IH _ Hr).
Qed.

End CaseFolding.

(** [strings.ToLower] on ASCII strings, and on strings an ASCII case
    fold apart. *)
Lemma ToLower_ASCII_iff (mapLower : string -> string) (s t : string) :
  strings.isASCII s = true -> strings.isASCII t = true ->
  strings.ToLower mapLower s = strings.ToLower mapLower t
  <-> equalIgnoringCase s t = true.
Proof.
  intros Hs Ht. unfold strings.ToLower. rewrite Hs, Ht.
  rewrite <- lowerASCII_eqb_equalIgnoringCase. symmetry.
  apply String.eqb_eq.
Qed.

Lemma ToLower_fold (mapLower : string -> string) (s t : string) :
  strings.isASCII s = true \/ foldsASCIICase mapLower ->
  equalIgnoringCase s t = true ->
  strings.ToLower mapLower s = strings.ToLower mapLower t.
Proof.
  intros H E. unfold strings.ToLower.
  rewrite <- (equalIgnoringCase_isASCII s t E).
  destruct (strings.isASCII s) eqn:A.
  - apply String.eqb_eq. now rewrite lowerASCII_eqb_equalIgnoringCase.
  - destruct H as [H|H]; [discriminate H | now apply H].
Qed.

(* ================================================================= *)
(** ** Package [matchers]: the leaf matchers *)

Lemma decides_ret (b : bool) (P : Prop) :
  (b = true <-> P) -> decides (ret b) P.
Proof. intros H. exists b. split; [reflexivity | exact H]. Qed.

Lemma decides_false (c : Outcome bool) (P : Prop) :
  decides c P -> ~ P -> c = Returned false.
Proof.
  intros (b & -> & H) N. destruct b; [|reflexivity].
  exfalso. apply N, H. reflexivity.
Qed.

Lemma decides_true (c : Outcome bool) (P : Prop) :
  decides c P -> P -> c = Returned true.
Proof. intros (b & -> & H) p. apply H in p. now subst. Qed.

(** Closes [exists ..., e = Some _ /\ f _ = Some _ /\ ...] taken as a
    hypothesis: the equations are inverted one after the other. *)
Ltac open_witness :=
  intros;
  repeat match goal with
         | H : exists _, _ |- _ => destruct H
         | H : _ /\ _ |- _ => destruct H
         end;
  repeat match goal with
         | H : Some _ = Some _ |- _ => injection H as H; subst; cbn in *
         | H : None = Some _ |- _ => discriminate H
         | H : Some _ = None |- _ => discriminate H
         end;
  try discriminate; try assumption; try congruence.

(** C4.  [AddLabel{}] of package [matchers]: [MatchEvent(e)] is true
    exactly when [e] is non-nil, [e.Event] is non-nil and [*e.Event] is
    "labeled" (and it returns false otherwise, without failing);
    [MatchComment] and [MatchReviewComment] return false on every
    input. *)
Theorem matchers_AddLabel_spec :
  (forall e : option IssueEvent,
      decides (matchers.MatchEvent matchers.AddLabel e)
              (exists ev, e = Some ev /\ Event ev = Some "labeled"))
  /\ (forall c, matchers.MatchComment matchers.AddLabel c = Returned false)
  /\ (forall r,
         matchers.MatchReviewComment matchers.AddLabel r = Returned false).
Proof.
  split; [|split; reflexivity].
  intros [[i a [t|] c l]|]; cbn.
  - apply decides_ret. rewrite String.eqb_eq. split.
    + intros ->. eexists. split; reflexivity.
    + intros (ev & [= <-] & [= ->]). reflexivity.
  - apply decides_ret. split; [discriminate|].
    intros (ev & [= <-] & H). discriminate H.
  - apply decides_ret. split; [discriminate|].
    intros (ev & H & _). discriminate H.
Qed.

(** C6.  On a record of any of the three shapes whose creation
    timestamp [t] is present, [CreatedAfter(c)] matches exactly when
    [t] is strictly after [c] and [CreatedBefore(c)] exactly when [t]
    is strictly before [c]; when [t] equals [c] neither matches. *)
Theorem matchers_Created_strict (c t : time.Time) :
  (forall ev : IssueEvent, CreatedAt ev = Some t ->
      decides (matchers.MatchEvent (matchers.CreatedAfter c) (Some ev))
              (c < t)
      /\ decides (matchers.MatchEvent (matchers.CreatedBefore c) (Some ev))
                 (t < c)
      /\ (t = c ->
          matchers.MatchEvent (matchers.CreatedAfter c) (Some ev)
            = Returned false
          /\ matchers.MatchEvent (matchers.CreatedBefore c) (Some ev)
               = Returned false))
  /\ (forall cm : IssueComment, CommentCreatedAt cm = Some t ->
      decides (matchers.MatchComment (matchers.CreatedAfter c) (Some cm))
              (c < t)
      /\ decides (matchers.MatchComment (matchers.CreatedBefore c) (Some cm))
                 (t < c)
      /\ (t = c ->
          matchers.MatchComment (matchers.CreatedAfter c) (Some cm)
            = Returned false
          /\ matchers.MatchComment (matchers.CreatedBefore c) (Some cm)
               = Returned false))
  /\ (forall rv : PullRequestComment, ReviewCreatedAt rv = Some t ->
      decides
        (matchers.MatchReviewComment (matchers.CreatedAfter c) (Some rv))
        (c < t)
      /\ decides
           (matchers.MatchReviewComment (matchers.CreatedBefore c) (Some rv))
           (t < c)
      /\ (t = c ->
          matchers.MatchReviewComment (matchers.CreatedAfter c) (Some rv)
            = Returned false
          /\ matchers.MatchReviewComment (matchers.CreatedBefore c) (Some rv)
               = Returned false)).
Proof.
  split; [|split]; intros rec H; destruct rec; cbn in H; subst; cbn;
    unfold time.After, time.Before;
    (split; [|split]);
    try (apply decides_ret; apply Z.ltb_lt);
    intros ->; rewrite Z.ltb_irrefl; split; reflexivity.
Qed.

(** At a concrete instant: an event created at second 1001 is after
    second 1000 and not before it; and one created at 1000 is neither. *)
Lemma matchers_Created_strict_witness :
  let ev t := {| ID := Some 1; Actor := None; Event := None;
                 CreatedAt := Some t; EventLabel := None |} in
  matchers.MatchEvent (matchers.CreatedAfter (1000 * time.Second))
    (Some (ev (1001 * time.Second))) = Returned true
  /\ matchers.MatchEvent (matchers.CreatedAfter (1000 * time.Second))
       (Some (ev (1000 * time.Second))) = Returned false.
Proof.
  intros ev. split.
  - destruct (matchers_Created_strict (1000 * time.Second)
                (1001 * time.Second)) as [H _].
    destruct (H (ev (1001 * time.Second)) eq_refl) as [Ha _].
    apply (decides_true Ha). reflexivity.
  - destruct (matchers_Created_strict (1000 * time.Second)
                (1000 * time.Second)) as [H _].
    destruct (H (ev (1000 * time.Second)) eq_refl) as (_ & _ & He).
    apply (He eq_refl).
Defined.

(** [ValidAuthor] on the three shapes: total, and true exactly when
    the record, its author reference and the login are all there. *)
Lemma matchers_ValidAuthor_MatchEvent e :
  matchers.ValidAuthor_MatchEvent e
  = Returned (match e with
              | Some ev => notNil (loginOf (Actor ev))
              | None => false
              end).
Proof. destruct e as [[i [[l]|] t c lb]|]; reflexivity. Qed.

Lemma matchers_ValidAuthor_MatchComment c :
  matchers.ValidAuthor_MatchComment c
  = Returned (match c with
              | Some cm => notNil (loginOf (CommentUser cm))
              | None => false
              end).
Proof. destruct c as [[i [[l]|] t]|]; reflexivity. Qed.

Lemma matchers_ValidAuthor_MatchReviewComment r :
  matchers.ValidAuthor_MatchReviewComment r
  = Returned (match r with
              | Some rv => notNil (loginOf (ReviewUser rv))
              | None => false
              end).
Proof. destruct r as [[i [[l]|] t]|]; reflexivity. Qed.

(** C7.  On each of the three shapes, [AuthorLogin(name)] never fails
    and matches exactly when the record, its author reference and the
    author's login are all non-nil and the login is case-insensitively
    equal to [name], that is, [strings.ToLower] gives the same string
    for both; so with a nil author reference or a nil login it returns
    false.  For an ASCII login and name this is equality ignoring the
    case of letters, byte by byte; and strings that differ only in the
    case of ASCII letters are equal in this sense whatever else they
    hold. *)
Theorem matchers_AuthorLogin_spec
    (mapLower : string -> string) (name : string) :
  (forall e : option IssueEvent,
      decides (matchers.MatchEvent (matchers.AuthorLogin mapLower name) e)
              (exists ev u l,
                  e = Some ev /\ Actor ev = Some u /\ Login u = Some l
                  /\ strings.ToLower mapLower l
                     = strings.ToLower mapLower name))
  /\ (forall c : option IssueComment,
      decides (matchers.MatchComment (matchers.AuthorLogin mapLower name) c)
              (exists cm u l,
                  c = Some cm /\ CommentUser cm = Some u /\ Login u = Some l
                  /\ strings.ToLower mapLower l
                     = strings.ToLower mapLower name))
  /\ (forall r : option PullRequestComment,
      decides
        (matchers.MatchReviewComment (matchers.AuthorLogin mapLower name) r)
        (exists rv u l,
            r = Some rv /\ ReviewUser rv = Some u /\ Login u = Some l
            /\ strings.ToLower mapLower l = strings.ToLower mapLower name))
  /\ (forall l,
         strings.isASCII l = true -> strings.isASCII name = true ->
         strings.ToLower mapLower l = strings.ToLower mapLower name
         <-> equalIgnoringCase l name = true)
  /\ (forall l,
         strings.isASCII l = true \/ foldsASCIICase mapLower ->
         equalIgnoringCase l name = true ->
         strings.ToLower mapLower l = strings.ToLower mapLower name).
Proof.
  split; [|split; [|split; [|split]]].
  - intros [[i [[[l|]]|] t c lb]|]; cbn; apply decides_ret;
      rewrite ?String.eqb_eq;
      (split; [intros H; try discriminate H | open_witness]).
    do 3 eexists. repeat split; try reflexivity. exact H.
  - intros [[i [[[l|]]|] t]|]; cbn; apply decides_ret;
      rewrite ?String.eqb_eq;
      (split; [intros H; try discriminate H | open_witness]).
    do 3 eexists. repeat split; try reflexivity. exact H.
  - intros [[i [[[l|]]|] t]|]; cbn; apply decides_ret;
      rewrite ?String.eqb_eq;
      (split; [intros H; try discriminate H | open_witness]).
    do 3 eexists. repeat split; try reflexivity. exact H.
  - intros l. apply ToLower_ASCII_iff.
  - intros l. apply ToLower_fold.
Qed.

(** A review comment by "Bob" against the name "bob", both ASCII. *)
Lemma matchers_AuthorLogin_spec_witness :
  matchers.MatchReviewComment (matchers.AuthorLogin (fun s => s) "bob")
    (Some {| ReviewID := Some 4;
             ReviewUser := Some {| Login := Some "Bob" |};
             ReviewCreatedAt := None |}) = Returned true.
Proof.
  destruct (matchers_AuthorLogin_spec (fun s => s) "bob")
    as (_ & _ & Hr & Ha & _).
  apply (decides_true (Hr _)).
  exists {| ReviewID := Some 4;
            ReviewUser := Some {| Login := Some "Bob" |};
            ReviewCreatedAt := None |}, {| Login := Some "Bob" |}, "Bob".
  split; [reflexivity|]. split; [reflexivity|]. split; [reflexivity|].
  apply (Ha "Bob"); reflexivity.
Defined.

(* ================================================================= *)
(** ** Package [event]: leaf matchers *)

(** C9.  [Actor(name).Match(e)] of package [event] returns true exactly
    when [e.Actor] and [e.Actor.Login] are non-nil and the login is
    [name], byte for byte; on a non-nil event it never fails.  A login
    that differs from [name] only in letter case is therefore not
    matched by [Actor], while [AuthorLogin] of package [matchers]
    matches it (for a login that is not ASCII, given that the Unicode
    lower-casing treats the two strings alike); such events exist. *)
Theorem event_Actor_spec (mapLower : string -> string) :
  (forall (name : string) (e : option IssueEvent),
      event.Match (event.Actor name) e = Returned true
      <-> exists ev u, e = Some ev /\ Actor ev = Some u
                       /\ Login u = Some name)
  /\ (forall (name : string) (ev : IssueEvent),
         returns (event.Match (event.Actor name) (Some ev)))
  /\ (forall (name l : string) (ev : IssueEvent),
         loginOf (Actor ev) = Some l ->
         l <> name -> equalIgnoringCase l name = true ->
         strings.isASCII l = true \/ foldsASCIICase mapLower ->
         event.Match (event.Actor name) (Some ev) = Returned false
         /\ matchers.MatchEvent (matchers.AuthorLogin mapLower name)
              (Some ev) = Returned true)
  /\ (exists (name l : string) (ev : IssueEvent),
         loginOf (Actor ev) = Some l
         /\ l <> name /\ equalIgnoringCase l name = true
         /\ event.Match (event.Actor name) (Some ev) = Returned false
         /\ matchers.MatchEvent (matchers.AuthorLogin mapLower name)
              (Some ev) = Returned true).
Proof.
  split; [|split; [|split]].
  - intros name [[i [[[l|]]|] t c lb]|]; cbn;
      (split; [intros H; try discriminate H | open_witness]).
    + injection H as H. apply String.eqb_eq in H. subst.
      do 2 eexists. repeat split; reflexivity.
    + rewrite String.eqb_refl. reflexivity.
  - intros name [i [[[l|]]|] t c lb]; cbn; eexists; reflexivity.
  - intros name l [i [[[l'|]]|] t c lb]; cbn; intros [= ->] N E A;
      try discriminate.
    rewrite (@ToLower_fold mapLower l name A E), String.eqb_refl.
    apply String.eqb_neq in N. rewrite N. split; reflexivity.
  - exists "bob", "Bob",
      {| ID := Some 7; Actor := Some {| Login := Some "Bob" |};
         Event := Some "labeled"; CreatedAt := Some 0;
         EventLabel := None |}.
    cbn. repeat split; try reflexivity. discriminate.
Qed.

(** The login "Bob" against the name "bob". *)
Lemma event_Actor_spec_witness :
  let ev := {| ID := Some 7; Actor := Some {| Login := Some "Bob" |};
               Event := Some "labeled"; CreatedAt := Some 0;
               EventLabel := None |} in
  event.Match (event.Actor "bob") (Some ev) = Returned false
  /\ matchers.MatchEvent (matchers.AuthorLogin (fun s => s) "bob") (Some ev)
       = Returned true.
Proof.
  intros ev.
  destruct (event_Actor_spec (fun s => s)) as (_ & _ & H & _).
  apply (H "bob" "Bob" ev).
  - reflexivity.
  - discriminate.
  - reflexivity.
  - left. reflexivity.
Defined.

(** C10.  [AddLabel(name).Match(e)] of package [event] returns true
    exactly when [e.Label], [e.Label.Name] and [e.Event] are all non-nil
    and the event type is "labeled" or the label name is [name]: the two
    tests are joined by "or".  On a non-nil event it never fails.  So an
    event of another type whose label is named [name] still matches,
    and such events exist. *)
Theorem event_AddLabel_spec :
  (forall (name : string) (e : option IssueEvent),
      event.Match (event.AddLabel name) e = Returned true
      <-> exists ev lb n t,
            e = Some ev /\ EventLabel ev = Some lb /\ Name lb = Some n
            /\ Event ev = Some t /\ (t = "labeled" \/ n = name))
  /\ (forall (name : string) (ev : IssueEvent),
         returns (event.Match (event.AddLabel name) (Some ev)))
  /\ (exists (name t : string) (ev : IssueEvent),
         Event ev = Some t /\ t <> "labeled"
         /\ event.Match (event.AddLabel name) (Some ev) = Returned true).
Proof.
  split; [|split].
  - intros name [[i a [t|] c [[[n|]]|]]|]; cbn;
      (split; [intros H; try discriminate H |]);
      try (intros (ev & lb & n' & t' & [= <-] & El & En & Et & D);
           cbn in El, Et; try discriminate;
           injection El as <-; cbn in En; try discriminate).
    + exists {| ID := i; Actor := a; Event := Some t; CreatedAt := c;
                EventLabel := Some {| Name := Some n |} |},
             {| Name := Some n |}, n, t.
      repeat split.
      destruct (String.eqb_spec t "labeled") as [->|_]; [now left|].
      right. cbn in H. injection H as H. now apply String.eqb_eq.
    + injection En as <-. injection Et as <-.
      destruct D as [->| ->]; cbn.
      * reflexivity.
      * destruct (String.eqb t "labeled"); cbn; [reflexivity|].
        rewrite String.eqb_refl. reflexivity.
  - intros name [i a [t|] c [[[n|]]|]]; cbn; try (eexists; reflexivity).
    destruct (String.eqb t "labeled"); cbn; eexists; reflexivity.
  - exists "kind/bug", "unlabeled",
      {| ID := Some 9; Actor := None; Event := Some "unlabeled";
         CreatedAt := None;
         EventLabel := Some {| Name := Some "kind/bug" |} |}.
    cbn. repeat split. discriminate.
Qed.

(* ================================================================= *)
(** ** Package [event]: the combinators *)

Lemma And_Match_true_iff (ms : list event.Matcher) e :
  event.And_Match ms e = Returned true
  <-> Forall (fun m => event.Match m e = Returned true) ms.
Proof.
  induction ms as [|m ms IH]; cbn.
  - split; [constructor | reflexivity].
  - destruct (event.Match m e) as [[|]|] eqn:E; cbn.
    + rewrite IH. split.
      * intros H. constructor; assumption.
      * intros H. inversion H; assumption.
    + split; [discriminate|]. intros H. inversion H; congruence.
    + split; [discriminate|]. intros H. inversion H; congruence.
Qed.

Lemma Or_Match_false_iff (ms : list event.Matcher) e :
  event.Or_Match ms e = Returned false
  <-> Forall (fun m => event.Match m e = Returned false) ms.
Proof.
  induction ms as [|m ms IH]; cbn.
  - split; [constructor | reflexivity].
  - destruct (event.Match m e) as [[|]|] eqn:E; cbn.
    + split; [discriminate|]. intros H. inversion H; congruence.
    + rewrite IH. split.
      * intros H. constructor; assumption.
      * intros H. inversion H; assumption.
    + split; [discriminate|]. intros H. inversion H; congruence.
Qed.

Lemma And_Match_returns (ms : list event.Matcher) e :
  Forall (fun m => returns (event.Match m e)) ms ->
  returns (event.And_Match ms e).
Proof.
  induction 1 as [|m ms [b Hb] _ IH]; cbn.
  - eexists; reflexivity.
  - rewrite Hb. destruct b; cbn; [exact IH | eexists; reflexivity].
Qed.

Lemma Or_Match_returns (ms : list event.Matcher) e :
  Forall (fun m => returns (event.Match m e)) ms ->
  returns (event.Or_Match ms e).
Proof.
  induction 1 as [|m ms [b Hb] _ IH]; cbn.
  - eexists; reflexivity.
  - rewrite Hb. destruct b; cbn; [eexists; reflexivity | exact IH].
Qed.

Lemma Or_Match_true_iff (ms : list event.Matcher) e :
  Forall (fun m => returns (event.Match m e)) ms ->
  event.Or_Match ms e = Returned true
  <-> Exists (fun m => event.Match m e = Returned true) ms.
Proof.
  induction 1 as [|m ms [b Hb] _ IH]; cbn.
  - split; [discriminate | intros H; inversion H].
  - rewrite Hb. destruct b; cbn.
    + split; [intros _; now constructor | reflexivity].
    + rewrite IH. split.
      * intros H. now apply Exists_cons_tl.
      * intros H. inversion H; [congruence | assumption].
Qed.

(** C3.  On every event, [And] of no children matches and [Or] of no
    children does not.  [And(children)] returns true exactly when every
    child returns true, and [Or(children)] returns false exactly when
    every child returns false.  When each child returns a boolean on
    the event, so do [And] and [Or], and then [And] matches iff every
    child matches and [Or] matches iff some child matches. *)
Theorem event_And_Or_spec (e : option IssueEvent) :
  event.Match (event.And []) e = Returned true
  /\ event.Match (event.Or []) e = Returned false
  /\ (forall children,
         event.Match (event.And children) e = Returned true
         <-> Forall (fun m => event.Match m e = Returned true) children)
  /\ (forall children,
         event.Match (event.Or children) e = Returned false
         <-> Forall (fun m => event.Match m e = Returned false) children)
  /\ (forall children,
         Forall (fun m => returns (event.Match m e)) children ->
         decides (event.Match (event.And children) e)
                 (Forall (fun m => event.Match m e = Returned true) children)
         /\ decides (event.Match (event.Or children) e)
                    (Exists (fun m => event.Match m e = Returned true)
                            children)).
Proof.
  split; [reflexivity|]. split; [reflexivity|].
  split; [intros; apply And_Match_true_iff|].
  split; [intros; apply Or_Match_false_iff|].
  intros children T. split.
  - destruct (And_Match_returns e T) as [b Hb]. exists b. cbn.
    split; [exact Hb|]. rewrite <- And_Match_true_iff, Hb.
    split; congruence.
  - destruct (Or_Match_returns e T) as [b Hb]. exists b. cbn.
    split; [exact Hb|]. rewrite <- (Or_Match_true_iff e T), Hb.
    split; congruence.
Qed.

(** Two children on an event by "bob" that was labeled: [Actor "bob"]
    matches and [Actor "alice"] does not, so [Or] matches and [And]
    does not. *)
Lemma event_And_Or_spec_witness :
  let e := Some {| ID := Some 1; Actor := Some {| Login := Some "bob" |};
                   Event := Some "labeled"; CreatedAt := Some 5;
                   EventLabel := None |} in
  let children := [event.Actor "alice"; event.Actor "bob"] in
  event.Match (event.Or children) e = Returned true
  /\ event.Match (event.And children) e = Returned false.
Proof.
  intros e children.
  destruct (event_And_Or_spec e) as (_ & _ & _ & _ & H).
  destruct (H children) as [Ha Ho].
  - repeat constructor; eexists; reflexivity.
  - split.
    + apply (decides_true Ho). apply Exists_cons_tl, Exists_cons_hd.
      reflexivity.
    + apply (decides_false Ha). intros F. inversion F as [|? ? F1 _].
      discriminate F1.
Defined.

(* ================================================================= *)
(** ** Package [event]: the filter *)

Lemma FindEvent_range_filter events matcher (acc : list (option IssueEvent)) :
  Forall (fun e => returns (event.Match matcher e)) events ->
  event.FindEvent_range events matcher (Some acc)
  = Returned
      (Some (acc ++ filter (fun e => holds (event.Match matcher e)) events)).
Proof.
  intros T. revert acc.
  induction T as [|e events [b Hb] _ IH]; intros acc; cbn.
  - now rewrite app_nil_r.
  - rewrite Hb. cbn. destruct b; cbn.
    + rewrite IH, <- app_assoc. reflexivity.
    + apply IH.
Qed.

(** C5.  Whenever the matcher returns a boolean on each element,
    [FindEvent] returns the elements on which it returns true, in their
    input order and as often as they occur, in a non-nil slice.  A nil
    or empty input gives an empty non-nil slice for every matcher, and
    so does an input on which nothing matches. *)
Theorem event_FindEvent_spec (matcher : event.Matcher) :
  event.FindEvent None matcher = Returned (Some [])
  /\ event.FindEvent (Some []) matcher = Returned (Some [])
  /\ (forall events : Slice (option IssueEvent),
         Forall (fun e => returns (event.Match matcher e)) (elems events) ->
         event.FindEvent events matcher
         = Returned
             (Some (filter (fun e => holds (event.Match matcher e))
                           (elems events))))
  /\ (forall events : Slice (option IssueEvent),
         Forall (fun e => event.Match matcher e = Returned false)
                (elems events) ->
         event.FindEvent events matcher = Returned (Some [])).
Proof.
  split; [reflexivity|]. split; [reflexivity|]. split.
  - intros events T. unfold event.FindEvent.
    now rewrite FindEvent_range_filter.
  - intros events F. unfold event.FindEvent.
    rewrite FindEvent_range_filter.
    + cbn. do 2 f_equal. induction F as [|e l He _ IH]; cbn.
      * reflexivity.
      * rewrite He. exact IH.
    + eapply Forall_impl; [|exact F]. intros a Ha. eexists; exact Ha.
Qed.

(** Events by alice, bob, bob, alice: filtering on [Actor "bob"] keeps
    the second and the third, in that order, both of them although they
    are equal. *)
Lemma event_FindEvent_spec_witness :
  let by_ who := Some {| ID := Some 1;
                         Actor := Some {| Login := Some who |};
                         Event := Some "labeled"; CreatedAt := Some 5;
                         EventLabel := None |} in
  event.FindEvent (Some [by_ "alice"; by_ "bob"; by_ "bob"; by_ "alice"])
                  (event.Actor "bob")
  = Returned (Some [by_ "bob"; by_ "bob"]).
Proof.
  intros by_.
  destruct (event_FindEvent_spec (event.Actor "bob")) as (_ & _ & H & _).
  rewrite H.
  - reflexivity.
  - repeat constructor; eexists; reflexivity.
Defined.

(* ================================================================= *)
(** ** Nil records and nil fields *)

(** Every leaf matcher of package [matchers] returns a boolean on every
    record of every shape. *)
Lemma matchers_leaf_total (mapLower : string -> string) (k : Leaf) :
  (forall e, returns (matchers.MatchEvent (leafMatcher mapLower k) e))
  /\ (forall c, returns (matchers.MatchComment (leafMatcher mapLower k) c))
  /\ (forall r,
         returns (matchers.MatchReviewComment (leafMatcher mapLower k) r)).
Proof.
  destruct k; (split; [|split]).
  all: try (intros; eexists; reflexivity).
  all: try (intros [[? ? [?|] [?|] [[[?|]]|]]|]; eexists; reflexivity).
  all: try (intros [[? [[[?|]]|] [?|]]|]; eexists; reflexivity).
  all: intros [[? [[[?|]]|] ? ? ?]|]; eexists; reflexivity.
Qed.

(** Against C2 as a statement about every leaf matcher of both
    packages, evaluations on records with a nil record or a nil
    inspected field.  Each shape discriminator answers true on a nil
    pointer of its own shape.  In package [event], [CreatedAfter] and
    [CreatedBefore] on an event without timestamp panic, and each of the
    four leaf matchers panics on a nil event pointer. *)
Lemma leaf_matchers_not_fail_closed :
  (missingInEvent LeafEventType None = true
   /\ matchers.MatchEvent (leafMatcher (fun s => s) LeafEventType) None
      = Returned true)
  /\ (missingInComment LeafCommentType None = true
      /\ matchers.MatchComment (leafMatcher (fun s => s) LeafCommentType)
           None = Returned true)
  /\ (missingInReview LeafReviewCommentType None = true
      /\ matchers.MatchReviewComment
           (leafMatcher (fun s => s) LeafReviewCommentType) None
         = Returned true)
  /\ (let ev := {| ID := Some 3; Actor := None; Event := Some "labeled";
                   CreatedAt := None; EventLabel := None |} in
      missingForEventLeaf (EventLeafCreatedAfter 10) (Some ev) = true
      /\ event.Match (eventLeafMatcher (EventLeafCreatedAfter 10)) (Some ev)
         = Panic
      /\ missingForEventLeaf (EventLeafCreatedBefore 10) (Some ev) = true
      /\ event.Match (eventLeafMatcher (EventLeafCreatedBefore 10)) (Some ev)
         = Panic)
  /\ (missingForEventLeaf (EventLeafActor "bob") None = true
      /\ event.Match (eventLeafMatcher (EventLeafActor "bob")) None = Panic)
  /\ (missingForEventLeaf (EventLeafAddLabel "bug") None = true
      /\ event.Match (eventLeafMatcher (EventLeafAddLabel "bug")) None
         = Panic)
  /\ (missingForEventLeaf (EventLeafCreatedAfter 10) None = true
      /\ event.Match (eventLeafMatcher (EventLeafCreatedAfter 10)) None
         = Panic)
  /\ (missingForEventLeaf (EventLeafCreatedBefore 10) None = true
      /\ event.Match (eventLeafMatcher (EventLeafCreatedBefore 10)) None
         = Panic).
Proof. repeat split. Qed.

(** C2, in the form the code supports.  In package [matchers] every
    leaf matcher returns a boolean on every record of every shape.
    Every leaf matcher returns false when the record or a field it
    inspects is nil, on each of the three shapes, with one exception
    per shape: the discriminator of that shape.  The discriminators are
    constant: each returns true on every record of its own shape, a nil
    one included, and false on every record of the two other shapes.
    In package [event], [Actor] and [AddLabel] return false on a
    non-nil event in which a field they inspect is nil. *)
Theorem leaf_matchers_on_missing_fields (mapLower : string -> string) :
  (forall k : Leaf,
      (forall e, returns (matchers.MatchEvent (leafMatcher mapLower k) e))
      /\ (forall c,
             returns (matchers.MatchComment (leafMatcher mapLower k) c))
      /\ (forall r,
             returns
               (matchers.MatchReviewComment (leafMatcher mapLower k) r)))
  /\ (forall (k : Leaf) e,
         k <> LeafEventType -> missingInEvent k e = true ->
         matchers.MatchEvent (leafMatcher mapLower k) e = Returned false)
  /\ (forall (k : Leaf) c,
         k <> LeafCommentType -> missingInComment k c = true ->
         matchers.MatchComment (leafMatcher mapLower k) c = Returned false)
  /\ (forall (k : Leaf) r,
         k <> LeafReviewCommentType -> missingInReview k r = true ->
         matchers.MatchReviewComment (leafMatcher mapLower k) r
         = Returned false)
  /\ (forall e c r,
         matchers.MatchEvent matchers.EventType e = Returned true
         /\ matchers.MatchComment matchers.EventType c = Returned false
         /\ matchers.MatchReviewComment matchers.EventType r
            = Returned false
         /\ matchers.MatchEvent matchers.CommentType e = Returned false
         /\ matchers.MatchComment matchers.CommentType c = Returned true
         /\ matchers.MatchReviewComment matchers.CommentType r
            = Returned false
         /\ matchers.MatchEvent matchers.ReviewCommentType e
            = Returned false
         /\ matchers.MatchComment matchers.ReviewCommentType c
            = Returned false
         /\ matchers.MatchReviewComment matchers.ReviewCommentType r
            = Returned true)
  /\ (forall (a : string) (ev : IssueEvent),
         (missingForEventLeaf (EventLeafActor a) (Some ev) = true ->
          event.Match (event.Actor a) (Some ev) = Returned false)
         /\ (missingForEventLeaf (EventLeafAddLabel a) (Some ev) = true ->
             event.Match (event.AddLabel a) (Some ev) = Returned false)).
Proof.
  split; [exact (matchers_leaf_total mapLower)|].
  split; [|split; [|split; [|split]]].
  - intros k e D. destruct k; try (now contradiction D); revert e.
    all: try (intros; reflexivity).
    all: try (intros [[? ? [?|] [?|] [[[?|]]|]]|] H;
              (reflexivity || discriminate H)).
    all: intros [[? [[[?|]]|] ? ? ?]|] H; (reflexivity || discriminate H).
  - intros k c D. destruct k; try (now contradiction D); revert c.
    all: try (intros; reflexivity).
    all: try (intros [[? [[[?|]]|] [?|]]|] H;
              (reflexivity || discriminate H)).
  - intros k r D. destruct k; try (now contradiction D); revert r.
    all: try (intros; reflexivity).
    all: try (intros [[? [[[?|]]|] [?|]]|] H;
              (reflexivity || discriminate H)).
  - intros; repeat split.
  - intros a [? [[[?|]]|] [?|] ? [[[?|]]|]]; split; intros H;
      (reflexivity || discriminate H).
Qed.

(** An event without actor and without label: the matchers of package
    [matchers] and [Actor], [AddLabel] of package [event] all answer
    false; and so does the discriminator for comments, asked about a
    nil review comment. *)
Lemma leaf_matchers_on_missing_fields_witness :
  let ev := {| ID := Some 3; Actor := None; Event := Some "labeled";
               CreatedAt := None; EventLabel := None |} in
  matchers.MatchEvent (matchers.AuthorLogin (fun s => s) "bob") (Some ev)
  = Returned false
  /\ matchers.MatchEvent (matchers.CreatedAfter 10) (Some ev) = Returned false
  /\ matchers.MatchReviewComment matchers.CommentType None = Returned false
  /\ event.Match (event.Actor "bob") (Some ev) = Returned false
  /\ event.Match (event.AddLabel "bug") (Some ev) = Returned false.
Proof.
  intros ev.
  destruct (leaf_matchers_on_missing_fields (fun s => s))
    as (_ & Hm & _ & Hr & _ & He).
  split; [|split; [|split; [|split]]].
  - apply (Hm (LeafAuthorLogin "bob") (Some ev)); [discriminate|].
    reflexivity.
  - apply (Hm (LeafCreatedAfter 10) (Some ev)); [discriminate|].
    reflexivity.
  - apply (Hr LeafCommentType None); [discriminate | reflexivity].
  - apply (He "bob" ev). reflexivity.
  - apply (He "bug" ev). reflexivity.
Defined.

(** What the statement above leaves open.  In package [event],
    [CreatedAfter] and [CreatedBefore] dereference the timestamp
    unguarded, and no matcher of that package guards the event pointer:
    these evaluations panic. *)
Lemma event_Created_nil_timestamp_panics (c : time.Time) (ev : IssueEvent) :
  CreatedAt ev = None ->
  event.Match (event.CreatedAfter c) (Some ev) = Panic
  /\ event.Match (event.CreatedBefore c) (Some ev) = Panic.
Proof. destruct ev; cbn; intros ->; split; reflexivity. Qed.

Lemma event_leaf_nil_event_panics (k : EventLeaf) :
  event.Match (eventLeafMatcher k) None = Panic.
Proof. destruct k; reflexivity. Qed.

(* ================================================================= *)
(** ** Package [main]: the client handle and the rate-limit wait *)

Section ClientFacts.

Variable svc : Service.

Lemma undisturbed_refl w : undisturbed w w.
Proof. repeat split. Qed.

Lemma undisturbed_trans w1 w2 w3 :
  undisturbed w1 w2 -> undisturbed w2 w3 -> undisturbed w1 w3.
Proof.
  intros (A1 & A2 & A3) (B1 & B2 & B3).
  repeat split; congruence.
Qed.

(** Once built, the handle is returned as it is. *)
Lemma getGithubClient_memo w c :
  githubClient (self w) = Some c ->
  getGithubClient svc w = Done (Some c, None) w.
Proof.
  intros H. unfold getGithubClient, seq, get. cbn. rewrite H. reflexivity.
Qed.

(** A successful [getGithubClient] leaves the handle in the client and
    touches neither the configuration nor the request counters. *)
Lemma getGithubClient_ok w w0 c :
  getGithubClient svc w = Done (Some c, None) w0 ->
  githubClient (self w0) = Some c
  /\ Org (self w0) = Org (self w)
  /\ Project (self w0) = Project (self w)
  /\ issueCalls w0 = issueCalls w
  /\ eventCalls w0 = eventCalls w.
Proof.
  unfold getGithubClient, seq, get. cbn.
  destruct (githubClient (self w)) as [c'|] eqn:E.
  - cbn. intros [= -> <-]. repeat split. exact E.
  - destruct (Nat.eqb (String.length (Token (self w))) 0
              && negb (Nat.eqb (String.length (TokenFile (self w))) 0))%bool.
    + destruct (ReadFile svc (TokenFile (self w))) as [data|err]; cbn.
      * intros [= <- <-]. repeat split.
      * discriminate.
    + cbn. intros [= <- <-]. repeat split.
Qed.

(** With the handle in place, [limitsCheckAndWait] returns: it probes,
    possibly sleeps, and leaves client and listings alone. *)
Lemma limitsCheckAndWait_ready w c :
  githubClient (self w) = Some c ->
  exists w', limitsCheckAndWait svc w = Done tt w' /\ undisturbed w w'.
Proof.
  intros H. unfold limitsCheckAndWait, seq.
  rewrite (getGithubClient_memo _ H). cbn.
  destruct (RateLimitsEndpoint svc (rateCalls w) c)
    as [[[[[lim rem reset]|] search]|] [err|]]; cbn;
    try (destruct (rem <? tokenLimit); cbn);
    eexists; (split; [reflexivity | repeat split]).
Qed.

(* ================================================================= *)
(** ** Package [main]: [FetchIssues] *)

Lemma printIssues_printable issues w :
  Forall printable issues ->
  exists w', printIssues issues w = Done tt w' /\ undisturbed w w'.
Proof.
  intros P. revert w.
  induction P as [|issue issues [Hn Hu] _ IH]; intros w; cbn.
  - eexists. split; [reflexivity | apply undisturbed_refl].
  - destruct issue as [[n|] [u|] st lbs]; cbn in *; try congruence.
    unfold seq. cbn.
    match goal with
    | |- context [printIssues issues ?w1] =>
        destruct (IH w1) as (w' & E & U)
    end.
    exists w'. split; [exact E|].
    eapply undisturbed_trans; [|exact U]. repeat split.
Qed.

(** The loop of [FetchIssues], entered with any list gathered so far:
    after [k] good pages the failing request ends the run with a nil
    list and the request's error, [k + 1] requests later. *)
Lemma FetchIssues_loop_aborts (k : nat) :
  forall fuel w c allIssues opt err,
    githubClient (self w) = Some c ->
    issuesFailAfter svc c (Org (self w)) (Project (self w)) k
                    (issueCalls w) opt err ->
    (k < fuel)%nat ->
    exists w',
      FetchIssues_loop svc fuel (Some c) allIssues opt w
      = Done (None, Some err) w'
      /\ issueCalls w' = (issueCalls w + k + 1)%nat.
Proof.
  induction k as [|k IH]; intros fuel w c allIssues opt err Hc Hf Hfuel;
    (destruct fuel as [|fuel]; [lia|]); cbn [FetchIssues_loop];
    destruct (limitsCheckAndWait_ready w Hc) as (w1 & E1 & Us & Ui & Ue);
    unfold seq; rewrite E1; cbn;
    rewrite <- Us, <- Ui in Hf; rewrite <- Us in Hc.
  - cbn in Hf. rewrite Hf. cbn. eexists. split; [reflexivity|].
    cbn. lia.
  - destruct Hf as (issues & resp & Hl & Hp & Hn & Hf).
    rewrite Hl.
    match goal with
    | |- context [printIssues issues ?w2] =>
        destruct (printIssues_printable w2 Hp) as (w3 & E3 & Vs & Vi & Ve)
    end.
    rewrite E3. cbn in Vs, Vi, Ve.
    apply Z.eqb_neq in Hn. rewrite Hn.
    rewrite <- Vs in Hc, Hf. rewrite <- Vi in Hf.
    destruct (IH fuel w3 c (append allIssues issues)
                 (setPage opt (NextPage resp)) err Hc Hf) as (w' & E' & C').
    + lia.
    + exists w'. split; [exact E'|]. rewrite C', Vi. lia.
Qed.
(** C8.  With the client handle obtained, when a page request of
    [FetchIssues] fails after [k] pages were fetched, the operation
    returns the nil list together with that request's error, whatever
    the earlier pages held, and the failed request is the last one: no
    request follows it. *)
Theorem FetchIssues_request_error_aborts
    (latest : time.Time) (w w0 : World) (c : GithubClient)
    (k : nat) (err : error) (fuel : nat) :
  getGithubClient svc w = Done (Some c, None) w0 ->
  issuesFailAfter svc c (Org (self w)) (Project (self w)) k
                  (issueCalls w) (issuesOptions latest) err ->
  (k < fuel)%nat ->
  exists w',
    FetchIssues svc fuel latest w = Done (None, Some err) w'
    /\ issueCalls w' = (issueCalls w + k + 1)%nat.
Proof.
  intros Hg Hf Hfuel.
  destruct (getGithubClient_ok _ Hg) as (Hc & Ho & Hp & Hi & _).
  unfold FetchIssues, seq. rewrite Hg.
  rewrite <- Ho, <- Hp, <- Hi in Hf.
  destruct (@FetchIssues_loop_aborts k fuel w0 c None (issuesOptions latest)
              err Hc Hf Hfuel) as (w' & E & C).
  exists w'. split; [exact E|]. rewrite C, Hi. reflexivity.
Qed.

End ClientFacts.

(** The example service: the first page is fetched, the second request
    fails; the run ends with no list, the error, and two requests. *)
Lemma FetchIssues_request_error_aborts_witness :
  exists w',
    FetchIssues exampleService 5 0 exampleWorld
    = Done (None, Some "connection reset") w'
    /\ issueCalls w' = 2%nat.
Proof.
  eapply (@FetchIssues_request_error_aborts exampleService 0 exampleWorld
            _ (NewClient (Some "t")) 1 "connection reset" 5).
  - cbv. reflexivity.
  - cbn. exists [exampleIssue], {| NextPage := 2 |}.
    repeat split; try discriminate.
    repeat constructor; discriminate.
  - lia.
Defined.

(* ================================================================= *)
(** ** Package [main]: [FetchIssueEvents] *)

Section EventsFacts.

Variable svc : Service.

Unset Implicit Arguments.

Lemma wasIdFound_returns events id :
  Forall (fun ev => ID ev <> None) events ->
  returns (wasIdFound events id).
Proof.
  induction 1 as [|ev events Hid _ IH]; cbn.
  - eexists; reflexivity.
  - destruct (ID ev) as [i|]; [|congruence]. cbn.
    destruct (i =? id); [eexists; reflexivity | exact IH].
Qed.

(** The termination check returns a boolean. *)
Lemma termination_check_returns (latest : option Z) events resp :
  (latest <> None -> NextPage resp <> 0 ->
   Forall (fun ev => ID ev <> None) events) ->
  returns (ret (NextPage resp =? 0)
           ||| (ret (notNil latest)
                &&& (id <- deref latest ;; wasIdFound events id)))%go.
Proof.
  intros H. cbn. destruct (Z.eqb_spec (NextPage resp) 0) as [_|N]; cbn.
  - eexists; reflexivity.
  - destruct latest as [id|]; cbn.
    + apply wasIdFound_returns, H; [discriminate | exact N].
    + eexists; reflexivity.
Qed.

(** The loop of [FetchIssueEvents]: [k] failed requests are retried on
    the same options, and the first page that arrives ends the run. *)
Lemma FetchIssueEvents_loop_single_page (k : nat) :
  forall fuel w c latest allEvents events resp,
    githubClient (self w) = Some c ->
    eventsPageAfter svc c (Org (self w)) (Project (self w)) eventsOptions
                    (eventCalls w) k events resp ->
    (latest <> None -> NextPage resp <> 0 ->
     Forall (fun ev => ID ev <> None) events) ->
    (k < fuel)%nat ->
    exists w',
      FetchIssueEvents_loop svc fuel (Some c) latest allEvents eventsOptions w
      = Done (append allEvents events, None) w'
      /\ eventCalls w' = (eventCalls w + k + 1)%nat.
Proof.
  induction k as [|k IH];
    intros fuel w c latest allEvents events resp Hc [Hfail Hpage] Hid Hfuel;
    (destruct fuel as [|fuel]; [lia|]); cbn [FetchIssueEvents_loop];
    destruct (limitsCheckAndWait_ready svc w Hc) as (w1 & E1 & Us & Ui & Ue);
    unfold seq; rewrite E1; cbn;
    rewrite <- Us, <- Ue in Hpage, Hfail; rewrite <- Us in Hc.
  - rewrite Nat.add_0_r in Hpage. rewrite Hpage.
    destruct (termination_check_returns latest events resp Hid) as [b Hb].
    cbn in Hb. rewrite Hb. cbn.
    destruct b; eexists; (split; [reflexivity | cbn; lia]).
  - destruct (Hfail 0%nat) as [err Herr]; [lia|].
    rewrite Nat.add_0_r in Herr. rewrite Herr. cbn.
    match goal with
    | |- context [FetchIssueEvents_loop svc fuel _ _ _ _ ?w2] =>
        destruct (IH fuel w2 c latest allEvents events resp) as (w' & E' & C')
    end; cbn.
    + exact Hc.
    + split.
      * intros j Hj. destruct (Hfail (S j)) as [e He]; [lia|].
        exists e. rewrite <- He. f_equal. lia.
      * rewrite <- Hpage. f_equal. lia.
    + exact Hid.
    + lia.
    + exists w'. split; [exact E'|]. rewrite C'. cbn. lia.
Qed.

(** C1.  With the client handle obtained, and for every [latest], nil
    or not: when the event listing answers with a page after [k] failed
    requests, [FetchIssueEvents] returns exactly the events of that
    page and makes no further request, whether or not the response
    announces a next page and whether or not [latest] occurs in the
    page.  (When the termination check has to search the page for
    [latest], the events carry their identifiers.) *)
Theorem FetchIssueEvents_single_page
    (latest : option Z) (w w0 : World) (c : GithubClient) (k : nat)
    (events : list IssueEvent) (resp : Response) (fuel : nat) :
  getGithubClient svc w = Done (Some c, None) w0 ->
  eventsPageAfter svc c (Org (self w)) (Project (self w)) eventsOptions
                  (eventCalls w) k events resp ->
  (latest <> None -> NextPage resp <> 0 ->
   Forall (fun ev => ID ev <> None) events) ->
  (k < fuel)%nat ->
  exists w',
    FetchIssueEvents svc fuel latest w = Done (append None events, None) w'
    /\ elems (append None events) = events
    /\ eventCalls w' = (eventCalls w + k + 1)%nat.
Proof.
  intros Hg Hp Hid Hfuel.
  destruct (getGithubClient_ok svc w Hg) as (Hc & Ho & Hpr & _ & He).
  unfold FetchIssueEvents, seq. rewrite Hg.
  rewrite <- Ho, <- Hpr, <- He in Hp.
  destruct (@FetchIssueEvents_loop_single_page k fuel w0 c latest None
              events resp Hc Hp Hid Hfuel) as (w' & E & C).
  exists w'. split; [exact E|]. split.
  - destruct events; reflexivity.
  - rewrite C, He. reflexivity.
Qed.

End EventsFacts.

(** The example service, asked for everything up to event 7, which is
    not in the page: the first request fails and is retried; the page
    that arrives announces page 2, and still the run ends with the two
    events of that page after two requests. *)
Lemma FetchIssueEvents_single_page_witness :
  exists w',
    FetchIssueEvents exampleService 5 (Some 7) exampleWorld
    = Done (Some [exampleEvent 41; exampleEvent 42], None) w'
    /\ eventCalls w' = 2%nat.
Proof.
  destruct (@FetchIssueEvents_single_page exampleService (Some 7)
              exampleWorld
              {| self := {| Token := "t"; TokenFile := "";
                            Org := "kubernetes"; Project := "kubernetes";
                            githubClient := Some (NewClient (Some "t")) |};
                 now := 0; rateCalls := 0; issueCalls := 0; eventCalls := 0;
                 trace := [] |}
              (NewClient (Some "t")) 1
              [exampleEvent 41; exampleEvent 42] {| NextPage := 2 |} 5)
    as (w' & E & _ & C).
  - reflexivity.
  - split.
    + intros j Hj. exists "timeout". destruct j; [reflexivity | lia].
    + reflexivity.
  - intros _ _. repeat constructor; discriminate.
  - lia.
  - exists w'. split; [exact E | exact C].
Defined.

(* ================================================================= *)
(** ** More on package [matchers] *)

Lemma prefix_iff_append (p s : string) :
  String.prefix p s = true <-> exists suffix, s = (p ++ suffix)%string.
Proof.
  revert s. induction p as [|a p IH]; intros s; cbn.
  - destruct s; (split; [intros _; eexists; reflexivity | reflexivity]).
  - destruct s as [|b s]; cbn.
    + split; [discriminate | intros [x Hx]; discriminate Hx].
    + destruct (ascii_dec a b) as [->|N].
      * rewrite IH. split; intros [x Hx]; exists x.
        -- now rewrite Hx.
        -- now injection Hx.
      * split; [discriminate|]. intros [x Hx]. injection Hx as E _.
        congruence.
Qed.

(** X1.  [LabelPrefix(l).MatchEvent(e)] never fails and is true exactly
    when [e], [e.Label] and [e.Label.Name] are non-nil and the name is
    [l] followed by some (possibly empty) rest; the event type plays no
    part.  [MatchComment] and [MatchReviewComment] return false on
    every input. *)
Theorem matchers_LabelPrefix_spec (l : string) :
  (forall e : option IssueEvent,
      decides (matchers.MatchEvent (matchers.LabelPrefix l) e)
              (exists ev lb rest,
                  e = Some ev /\ EventLabel ev = Some lb
                  /\ Name lb = Some (l ++ rest)%string))
  /\ (forall c,
         matchers.MatchComment (matchers.LabelPrefix l) c = Returned false)
  /\ (forall r,
         matchers.MatchReviewComment (matchers.LabelPrefix l) r
         = Returned false).
Proof.
  split; [|split; reflexivity].
  intros [[i a t c [[[n|]]|]]|]; cbn; apply decides_ret;
    unfold strings.HasPrefix; rewrite ?prefix_iff_append;
    (split; [intros H; try discriminate H |]);
    try (intros (ev & lb & rest & [= <-] & El & En); cbn in El;
         try discriminate; injection El as <-; cbn in En;
         try discriminate).
  - destruct H as [rest ->]. do 3 eexists. repeat split.
  - injection En as ->. eexists; reflexivity.
Qed.

(** X2.  On each shape, [ValidAuthor] never fails and is true exactly
    when the record, its author reference and the author's login are
    all non-nil.  Whenever it is true, [AuthorLogin] of the record's own
    login matches; and whenever [AuthorLogin(a)] matches for any [a],
    [ValidAuthor] is true. *)
Theorem matchers_ValidAuthor_AuthorLogin (mapLower : string -> string) :
  (forall e : option IssueEvent,
      decides (matchers.MatchEvent matchers.ValidAuthor e)
              (exists ev u l,
                  e = Some ev /\ Actor ev = Some u /\ Login u = Some l)
      /\ (forall l, eventAuthor e = Some l ->
                    matchers.MatchEvent (matchers.AuthorLogin mapLower l) e
                    = Returned true)
      /\ (forall a,
             matchers.MatchEvent (matchers.AuthorLogin mapLower a) e
             = Returned true ->
             matchers.MatchEvent matchers.ValidAuthor e = Returned true))
  /\ (forall c : option IssueComment,
      decides (matchers.MatchComment matchers.ValidAuthor c)
              (exists cm u l,
                  c = Some cm /\ CommentUser cm = Some u
                  /\ Login u = Some l)
      /\ (forall l, commentAuthor c = Some l ->
                    matchers.MatchComment (matchers.AuthorLogin mapLower l) c
                    = Returned true)
      /\ (forall a,
             matchers.MatchComment (matchers.AuthorLogin mapLower a) c
             = Returned true ->
             matchers.MatchComment matchers.ValidAuthor c = Returned true))
  /\ (forall r : option PullRequestComment,
      decides (matchers.MatchReviewComment matchers.ValidAuthor r)
              (exists rv u l,
                  r = Some rv /\ ReviewUser rv = Some u /\ Login u = Some l)
      /\ (forall l, reviewAuthor r = Some l ->
                    matchers.MatchReviewComment
                      (matchers.AuthorLogin mapLower l) r
                    = Returned true)
      /\ (forall a,
             matchers.MatchReviewComment (matchers.AuthorLogin mapLower a) r
             = Returned true ->
             matchers.MatchReviewComment matchers.ValidAuthor r
             = Returned true)).
Proof.
  split; [|split].
  - intros [[? [[[l|]]|] ? ? ?]|]; cbn;
      (split; [apply decides_ret | split]);
      try (split; [discriminate | open_witness]);
      try (intros x H; (reflexivity || discriminate H)).
    + split; [intros _ | reflexivity]. do 3 eexists. repeat split.
    + intros x [= <-]. now rewrite String.eqb_refl.
  - intros [[? [[[l|]]|] ?]|]; cbn;
      (split; [apply decides_ret | split]);
      try (split; [discriminate | open_witness]);
      try (intros x H; (reflexivity || discriminate H)).
    + split; [intros _ | reflexivity]. do 3 eexists. repeat split.
    + intros x [= <-]. now rewrite String.eqb_refl.
  - intros [[? [[[l|]]|] ?]|]; cbn;
      (split; [apply decides_ret | split]);
      try (split; [discriminate | open_witness]);
      try (intros x H; (reflexivity || discriminate H)).
    + split; [intros _ | reflexivity]. do 3 eexists. repeat split.
    + intros x [= <-]. now rewrite String.eqb_refl.
Qed.

(** A comment by "Carol": [AuthorLogin] of her own login matches, and
    [ValidAuthor] is true because [AuthorLogin "carol"] matches. *)
Lemma matchers_ValidAuthor_AuthorLogin_witness :
  let c := Some {| CommentID := Some 1;
                   CommentUser := Some {| Login := Some "Carol" |};
                   CommentCreatedAt := None |} in
  matchers.MatchComment (matchers.AuthorLogin (fun s => s) "Carol") c
  = Returned true
  /\ matchers.MatchComment matchers.ValidAuthor c = Returned true.
Proof.
  intros c.
  destruct (matchers_ValidAuthor_AuthorLogin (fun s => s)) as (_ & H & _).
  destruct (H c) as (_ & Hown & Hv). split.
  - apply Hown. reflexivity.
  - apply (Hv "carol"). reflexivity.
Defined.

Lemma lowerByte_idempotent (c : ascii) :
  strings.lowerByte (strings.lowerByte c) = strings.lowerByte c.
Proof. destruct c as [[] [] [] [] [] [] [] []]; reflexivity. Qed.

Lemma lowerByte_below_128 (c : ascii) :
  Nat.ltb (nat_of_ascii (strings.lowerByte c)) 128
  = Nat.ltb (nat_of_ascii c) 128.
Proof. destruct c as [[] [] [] [] [] [] [] []]; reflexivity. Qed.

Lemma lowerASCII_idempotent (s : string) :
  strings.lowerASCII (strings.lowerASCII s) = strings.lowerASCII s.
Proof.
  induction s as [|c s IH]; cbn; [reflexivity|].
  now rewrite lowerByte_idempotent, IH.
Qed.

Lemma isASCII_lowerASCII (s : string) :
  strings.isASCII (strings.lowerASCII s) = strings.isASCII s.
Proof.
  induction s as [|c s IH]; cbn [strings.isASCII strings.lowerASCII];
    [reflexivity|].
  now rewrite lowerByte_below_128, IH.
Qed.

Lemma AuthorLogin_same_lowered (mapLower : string -> string) (a b : string) :
  strings.ToLower mapLower a = strings.ToLower mapLower b ->
  sameMatcher (matchers.AuthorLogin mapLower a)
              (matchers.AuthorLogin mapLower b).
Proof.
  intros H. split; [|split]; intros rec; cbn;
    unfold matchers.AuthorLogin_MatchEvent,
           matchers.AuthorLogin_MatchComment,
           matchers.AuthorLogin_MatchReviewComment;
    rewrite H; reflexivity.
Qed.

(** X3.  [AuthorLogin] sees its parameter only through
    [strings.ToLower]: two names with the same lower-cased form give
    matchers with the same outcome on every record of every shape.
    Names that differ only in the case of ASCII letters are such names
    (for names that are not ASCII, given that the Unicode lower-casing
    treats them alike), and so are an ASCII name and its lower-cased
    form. *)
Theorem matchers_AuthorLogin_case_invariant (mapLower : string -> string) :
  (forall a b,
      strings.ToLower mapLower a = strings.ToLower mapLower b ->
      sameMatcher (matchers.AuthorLogin mapLower a)
                  (matchers.AuthorLogin mapLower b))
  /\ (forall a b,
         strings.isASCII a = true \/ foldsASCIICase mapLower ->
         equalIgnoringCase a b = true ->
         sameMatcher (matchers.AuthorLogin mapLower a)
                     (matchers.AuthorLogin mapLower b))
  /\ (forall a,
         strings.isASCII a = true ->
         sameMatcher
           (matchers.AuthorLogin mapLower (strings.ToLower mapLower a))
           (matchers.AuthorLogin mapLower a)).
Proof.
  split; [|split].
  - intros a b. apply AuthorLogin_same_lowered.
  - intros a b A E. apply AuthorLogin_same_lowered.
    now apply ToLower_fold.
  - intros a A. apply AuthorLogin_same_lowered.
    unfold strings.ToLower. rewrite A, isASCII_lowerASCII, A.
    apply lowerASCII_idempotent.
Qed.

(** "BOB" and "bob" on an event by "Bob". *)
Lemma matchers_AuthorLogin_case_invariant_witness :
  let e := Some {| ID := Some 1; Actor := Some {| Login := Some "Bob" |};
                   Event := None; CreatedAt := None; EventLabel := None |} in
  matchers.MatchEvent (matchers.AuthorLogin (fun s => s) "BOB") e
  = matchers.MatchEvent (matchers.AuthorLogin (fun s => s) "bob") e.
Proof.
  intros e.
  destruct (matchers_AuthorLogin_case_invariant (fun s => s)) as (_ & H & _).
  destruct (H "BOB" "bob") as [He _].
  - left. reflexivity.
  - reflexivity.
  - apply He.
Defined.

Lemma decides_and (c1 c2 : Outcome bool) (P1 P2 : Prop) :
  decides c1 P1 -> decides c2 P2 ->
  (c1 = Returned true /\ c2 = Returned true) <-> (P1 /\ P2).
Proof.
  intros (b1 & -> & H1) (b2 & -> & H2). rewrite <- H1, <- H2.
  split; intros [A B]; split; congruence.
Qed.

(** X4.  Time bounds on every record.  On each shape, [CreatedAfter(a)]
    never fails and matches exactly the records that have a creation
    timestamp after [a], and [CreatedBefore(b)] exactly those that have
    one before [b]: a nil record, or one without timestamp, is matched
    by neither.  So both match exactly when the record has a timestamp
    strictly between [a] and [b]. *)
Theorem matchers_Created_window (a b : time.Time) :
  (forall e,
      decides (matchers.MatchEvent (matchers.CreatedAfter a) e)
              (exists t, eventCreated e = Some t /\ a < t)
      /\ decides (matchers.MatchEvent (matchers.CreatedBefore b) e)
                 (exists t, eventCreated e = Some t /\ t < b)
      /\ ((matchers.MatchEvent (matchers.CreatedAfter a) e = Returned true
           /\ matchers.MatchEvent (matchers.CreatedBefore b) e
              = Returned true)
          <-> exists t, eventCreated e = Some t /\ a < t < b))
  /\ (forall c,
      decides (matchers.MatchComment (matchers.CreatedAfter a) c)
              (exists t, commentCreated c = Some t /\ a < t)
      /\ decides (matchers.MatchComment (matchers.CreatedBefore b) c)
                 (exists t, commentCreated c = Some t /\ t < b)
      /\ ((matchers.MatchComment (matchers.CreatedAfter a) c = Returned true
           /\ matchers.MatchComment (matchers.CreatedBefore b) c
              = Returned true)
          <-> exists t, commentCreated c = Some t /\ a < t < b))
  /\ (forall r,
      decides (matchers.MatchReviewComment (matchers.CreatedAfter a) r)
              (exists t, reviewCreated r = Some t /\ a < t)
      /\ decides (matchers.MatchReviewComment (matchers.CreatedBefore b) r)
                 (exists t, reviewCreated r = Some t /\ t < b)
      /\ ((matchers.MatchReviewComment (matchers.CreatedAfter a) r
           = Returned true
           /\ matchers.MatchReviewComment (matchers.CreatedBefore b) r
              = Returned true)
          <-> exists t, reviewCreated r = Some t /\ a < t < b)).
Proof.
  assert (W : forall (o : option time.Time) (c1 c2 : Outcome bool),
             decides c1 (exists t, o = Some t /\ a < t) ->
             decides c2 (exists t, o = Some t /\ t < b) ->
             (c1 = Returned true /\ c2 = Returned true)
             <-> exists t, o = Some t /\ a < t < b).
  { intros o c1 c2 D1 D2. rewrite (@decides_and _ _ _ _ D1 D2). split.
    - intros [(t & Ht & H1) (t' & Ht' & H2)].
      exists t. split; [exact Ht|]. split; [exact H1|]. congruence.
    - intros (t & Ht & H1 & H2). split; exists t; split; assumption. }
  assert (Da : forall o : option time.Time,
             decides (match o with
                      | Some t => Returned (time.After t a)
                      | None => Returned false
                      end) (exists t, o = Some t /\ a < t)).
  { intros [t|]; apply decides_ret; unfold time.After.
    - rewrite Z.ltb_lt. split; [intros H; now exists t|].
      now intros (t' & [= <-] & H).
    - split; [discriminate | now intros (t' & H & _)]. }
  assert (Db : forall o : option time.Time,
             decides (match o with
                      | Some t => Returned (time.Before t b)
                      | None => Returned false
                      end) (exists t, o = Some t /\ t < b)).
  { intros [t|]; apply decides_ret; unfold time.Before.
    - rewrite Z.ltb_lt. split; [intros H; now exists t|].
      now intros (t' & [= <-] & H).
    - split; [discriminate | now intros (t' & H & _)]. }
  split; [|split].
  - intros e.
    assert (A : decides (matchers.MatchEvent (matchers.CreatedAfter a) e)
                        (exists t, eventCreated e = Some t /\ a < t)).
    { destruct e as [[? ? ? [t|] ?]|];
        [apply (Da (Some t)) | apply (Da None) |].
      apply decides_ret. split; [discriminate | now intros (t & H & _)]. }
    assert (B : decides (matchers.MatchEvent (matchers.CreatedBefore b) e)
                        (exists t, eventCreated e = Some t /\ t < b)).
    { destruct e as [[? ? ? [t|] ?]|];
        [apply (Db (Some t)) | apply (Db None) |].
      apply decides_ret. split; [discriminate | now intros (t & H & _)]. }
    split; [exact A|]. split; [exact B | exact (W _ _ _ A B)].
  - intros c.
    assert (A : decides (matchers.MatchComment (matchers.CreatedAfter a) c)
                        (exists t, commentCreated c = Some t /\ a < t)).
    { destruct c as [[? ? [t|]]|];
        [apply (Da (Some t)) | apply (Da None) |].
      apply decides_ret. split; [discriminate | now intros (t & H & _)]. }
    assert (B : decides (matchers.MatchComment (matchers.CreatedBefore b) c)
                        (exists t, commentCreated c = Some t /\ t < b)).
    { destruct c as [[? ? [t|]]|];
        [apply (Db (Some t)) | apply (Db None) |].
      apply decides_ret. split; [discriminate | now intros (t & H & _)]. }
    split; [exact A|]. split; [exact B | exact (W _ _ _ A B)].
  - intros r.
    assert (A : decides
                  (matchers.MatchReviewComment (matchers.CreatedAfter a) r)
                  (exists t, reviewCreated r = Some t /\ a < t)).
    { destruct r as [[? ? [t|]]|];
        [apply (Da (Some t)) | apply (Da None) |].
      apply decides_ret. split; [discriminate | now intros (t & H & _)]. }
    assert (B : decides
                  (matchers.MatchReviewComment (matchers.CreatedBefore b) r)
                  (exists t, reviewCreated r = Some t /\ t < b)).
    { destruct r as [[? ? [t|]]|];
        [apply (Db (Some t)) | apply (Db None) |].
      apply decides_ret. split; [discriminate | now intros (t & H & _)]. }
    split; [exact A|]. split; [exact B | exact (W _ _ _ A B)].
Qed.

(** X5.  The two packages on events.  Whenever [CreatedAfter] or
    [CreatedBefore] of package [event] returns a result, the matcher of
    the same name in package [matchers] returns the same result; and
    whatever [Actor(a)] of package [event] matches, [AuthorLogin(a)] of
    package [matchers] matches. *)
Theorem event_matchers_agree
    (mapLower : string -> string) (e : option IssueEvent) :
  (forall c b,
      event.Match (event.CreatedAfter c) e = Returned b ->
      matchers.MatchEvent (matchers.CreatedAfter c) e = Returned b)
  /\ (forall c b,
      event.Match (event.CreatedBefore c) e = Returned b ->
      matchers.MatchEvent (matchers.CreatedBefore c) e = Returned b)
  /\ (forall a,
      event.Match (event.Actor a) e = Returned true ->
      matchers.MatchEvent (matchers.AuthorLogin mapLower a) e
      = Returned true).
Proof.
  destruct e as [[? [[[l|]]|] ? [t|] ?]|]; cbn;
    (split; [intros c b H | split; [intros c b H | intros a H]]);
    try discriminate H; try exact H.
  all: injection H as H; apply String.eqb_eq in H; subst;
    now rewrite String.eqb_refl.
Qed.

(** An event by "bob" created at 7. *)
Lemma event_matchers_agree_witness :
  let e := Some {| ID := Some 1; Actor := Some {| Login := Some "bob" |};
                   Event := None; CreatedAt := Some 7; EventLabel := None |} in
  matchers.MatchEvent (matchers.CreatedAfter 5) e = Returned true
  /\ matchers.MatchEvent (matchers.AuthorLogin (fun s => s) "bob") e
     = Returned true.
Proof.
  intros e.
  destruct (event_matchers_agree (fun s => s) e) as (Ha & _ & Hl). split.
  - apply Ha. reflexivity.
  - apply Hl. reflexivity.
Defined.

(* ================================================================= *)
(** ** More on the combinators of package [event] *)

(** X6.  [Not] twice is the matcher itself, on every event and also
    where the matcher panics; and [Not] panics exactly where its
    matcher does. *)
Theorem event_Not_involutive (m : event.Matcher) (e : option IssueEvent) :
  event.Match (event.Not (event.Not m)) e = event.Match m e
  /\ (event.Match (event.Not m) e = Panic <-> event.Match m e = Panic).
Proof.
  cbn. unfold event.Not_Match. cbn. unfold event.Not_Match.
  destruct (event.Match m e) as [[|]|]; cbn; split;
    try reflexivity; split; (discriminate || reflexivity).
Qed.

(** X7.  De Morgan, with the order of evaluation: [Not(And(ms))] and
    [Or] of the negated children give the same outcome on every event,
    and so do [Not(Or(ms))] and [And] of the negated children, panics
    included. *)
Theorem event_De_Morgan (ms : list event.Matcher) (e : option IssueEvent) :
  event.Match (event.Not (event.And ms)) e
  = event.Match (event.Or (map event.Not ms)) e
  /\ event.Match (event.Not (event.Or ms)) e
     = event.Match (event.And (map event.Not ms)) e.
Proof.
  cbn. unfold event.Not_Match. cbn.
  induction ms as [|m ms [IHa IHo]]; cbn; [split; reflexivity|].
  unfold event.Not_Match.
  destruct (event.Match m e) as [[|]|]; cbn; split;
    (reflexivity || assumption).
Qed.

Lemma And_Match_app (ms1 ms2 : list event.Matcher) e :
  event.And_Match (ms1 ++ ms2) e
  = (b <- event.And_Match ms1 e ;;
     if negb b then ret false else event.And_Match ms2 e).
Proof.
  induction ms1 as [|m ms1 IH]; cbn; [reflexivity|].
  destruct (event.Match m e) as [[|]|]; cbn; [exact IH | reflexivity..].
Qed.

Lemma Or_Match_app (ms1 ms2 : list event.Matcher) e :
  event.Or_Match (ms1 ++ ms2) e
  = (b <- event.Or_Match ms1 e ;;
     if b then ret true else event.Or_Match ms2 e).
Proof.
  induction ms1 as [|m ms1 IH]; cbn; [reflexivity|].
  destruct (event.Match m e) as [[|]|]; cbn; [reflexivity | exact IH |].
  reflexivity.
Qed.

(** X8.  Nesting does not matter: an [And] among the children of an
    [And] can be replaced by its own children, in place, and likewise
    for [Or]; an [And] or [Or] of a single child is that child.  All
    equalities are between outcomes, on every event. *)
Theorem event_And_Or_flatten (e : option IssueEvent) :
  (forall ms1 inner ms2,
      event.Match (event.And (ms1 ++ event.And inner :: ms2)) e
      = event.Match (event.And (ms1 ++ inner ++ ms2)) e)
  /\ (forall ms1 inner ms2,
      event.Match (event.Or (ms1 ++ event.Or inner :: ms2)) e
      = event.Match (event.Or (ms1 ++ inner ++ ms2)) e)
  /\ (forall m,
      event.Match (event.And [m]) e = event.Match m e
      /\ event.Match (event.Or [m]) e = event.Match m e).
Proof.
  split; [|split].
  - intros ms1 inner ms2. cbn. rewrite !And_Match_app. cbn.
    reflexivity.
  - intros ms1 inner ms2. cbn. rewrite !Or_Match_app. cbn.
    reflexivity.
  - intros m. cbn. destruct (event.Match m e) as [[|]|]; split; reflexivity.
Qed.

(** X9.  Evaluation stops at the child that decides.  When the
    children before [m] all return true and [m] returns false, [And]
    returns false whatever comes after [m] — later children are not
    called, so one that would panic does no harm; dually for [Or] with
    the children before [m] returning false and [m] true.  A child that
    panics before any child has decided makes the combinator panic. *)
Theorem event_And_Or_short_circuit
    (ms1 ms2 : list event.Matcher) (m : event.Matcher)
    (e : option IssueEvent) :
  (Forall (fun x => event.Match x e = Returned true) ms1 ->
   (event.Match m e = Returned false ->
    event.Match (event.And (ms1 ++ m :: ms2)) e = Returned false)
   /\ (event.Match m e = Panic ->
       event.Match (event.And (ms1 ++ m :: ms2)) e = Panic))
  /\ (Forall (fun x => event.Match x e = Returned false) ms1 ->
      (event.Match m e = Returned true ->
       event.Match (event.Or (ms1 ++ m :: ms2)) e = Returned true)
      /\ (event.Match m e = Panic ->
          event.Match (event.Or (ms1 ++ m :: ms2)) e = Panic)).
Proof.
  split; intros F; cbn.
  - apply And_Match_true_iff in F. rewrite And_Match_app, F. cbn.
    split; intros ->; reflexivity.
  - apply Or_Match_false_iff in F. rewrite Or_Match_app, F. cbn.
    split; intros ->; reflexivity.
Qed.

(** On an event by "bob": [Actor "bob"], then [Actor "alice"], then the
    nil matcher.  [And] is false and [Or] — with the first two swapped
    — is true; the nil matcher is never called. *)
Lemma event_And_Or_short_circuit_witness :
  let e := Some {| ID := Some 1; Actor := Some {| Login := Some "bob" |};
                   Event := None; CreatedAt := None; EventLabel := None |} in
  event.Match (event.And [event.Actor "bob"; event.Actor "alice";
                          event.nilMatcher]) e = Returned false
  /\ event.Match (event.Or [event.Actor "alice"; event.Actor "bob";
                            event.nilMatcher]) e = Returned true.
Proof.
  intros e. split.
  - destruct (event_And_Or_short_circuit [event.Actor "bob"]
                [event.nilMatcher] (event.Actor "alice") e) as [H _].
    destruct H as [H _]; [repeat constructor|]. apply H. reflexivity.
  - destruct (event_And_Or_short_circuit [event.Actor "alice"]
                [event.nilMatcher] (event.Actor "bob") e) as [_ H].
    destruct H as [H _]; [repeat constructor|]. apply H. reflexivity.
Defined.

(* ================================================================= *)
(** ** More on [FindEvent] *)

Lemma bind_assoc {A B C} (c : Outcome A) (f : A -> Outcome B)
    (g : B -> Outcome C) :
  bind (bind c f) g = bind c (fun a => bind (f a) g).
Proof. destruct c; reflexivity. Qed.

Lemma bind_ext {A B} (c : Outcome A) (f g : A -> Outcome B) :
  (forall a, f a = g a) -> bind c f = bind c g.
Proof. intros H. destruct c; cbn; [apply H | reflexivity]. Qed.

Lemma bind_panic {A B} (c : Outcome A) :
  bind c (fun _ => @Panic B) = Panic.
Proof. destruct c; reflexivity. Qed.

(** The slice built so far is only ever extended. *)
Lemma FindEvent_range_acc events matcher (acc : list (option IssueEvent)) :
  event.FindEvent_range events matcher (Some acc)
  = (r <- event.FindEvent_range events matcher (Some []) ;;
     ret (Some (acc ++ elems r))).
Proof.
  revert acc. induction events as [|e events IH]; intros acc; cbn.
  - now rewrite app_nil_r.
  - destruct (event.Match matcher e) as [[|]|]; cbn; [|apply IH|reflexivity].
    rewrite (IH (acc ++ [e])), (IH [e]), bind_assoc.
    apply bind_ext. intros r. cbn. now rewrite <- app_assoc.
Qed.

Lemma FindEvent_range_nonnil events matcher acc r :
  event.FindEvent_range events matcher (Some acc) = Returned r ->
  exists l, r = Some l.
Proof.
  rewrite FindEvent_range_acc.
  destruct (event.FindEvent_range events matcher (Some [])); cbn;
    [|discriminate].
  intros [= <-]. eexists; reflexivity.
Qed.

Lemma FindEvent_range_panics events matcher acc :
  event.FindEvent_range events matcher (Some acc) = Panic
  <-> Exists (fun e => event.Match matcher e = Panic) events.
Proof.
  revert acc. induction events as [|e events IH]; intros acc; cbn.
  - split; [discriminate | intros H; inversion H].
  - destruct (event.Match matcher e) as [[|]|] eqn:E; cbn.
    + rewrite IH. split; [now right|].
      intros H. inversion H; [congruence | assumption].
    + rewrite IH. split; [now right|].
      intros H. inversion H; [congruence | assumption].
    + split; [intros _; now left | reflexivity].
Qed.

Lemma FindEvent_range_returns events matcher acc r :
  event.FindEvent_range events matcher (Some acc) = Returned r ->
  r = Some (acc ++ filter (fun e => holds (event.Match matcher e)) events).
Proof.
  revert acc. induction events as [|e events IH]; intros acc; cbn.
  - rewrite app_nil_r. now intros [= <-].
  - destruct (event.Match matcher e) as [[|]|]; cbn; [| |discriminate].
    + intros H. apply IH in H. now rewrite <- app_assoc in H.
    + apply IH.
Qed.

(** X10.  When [FindEvent] has no result.  [FindEvent] panics exactly
    when the matcher panics on some element of the input — also on an
    element that comes after matching ones — and otherwise it returns
    the non-nil slice of the elements on which the matcher returned
    true. *)
Theorem event_FindEvent_panics_iff
    (events : Slice (option IssueEvent)) (matcher : event.Matcher) :
  (event.FindEvent events matcher = Panic
   <-> Exists (fun e => event.Match matcher e = Panic) (elems events))
  /\ (event.FindEvent events matcher <> Panic ->
      event.FindEvent events matcher
      = Returned (Some (filter (fun e => holds (event.Match matcher e))
                               (elems events)))).
Proof.
  unfold event.FindEvent. split.
  - apply FindEvent_range_panics.
  - intros N.
    destruct (event.FindEvent_range (elems events) matcher (Some []))
      as [r|] eqn:E; [|congruence].
    apply FindEvent_range_returns in E. now subst.
Qed.

(** An event by "bob" followed by a nil pointer: [Actor] panics on the
    second element, and so does the filter. *)
Lemma event_FindEvent_panics_iff_witness :
  let bob := Some {| ID := Some 1; Actor := Some {| Login := Some "bob" |};
                     Event := None; CreatedAt := None;
                     EventLabel := None |} in
  event.FindEvent (Some [bob; None]) (event.Actor "bob") = Panic
  /\ event.FindEvent (Some [bob; bob]) (event.Actor "bob")
     = Returned (Some [bob; bob]).
Proof.
  intros bob. split.
  - apply (event_FindEvent_panics_iff (Some [bob; None]) (event.Actor "bob")).
    right. left. reflexivity.
  - apply (event_FindEvent_panics_iff (Some [bob; bob]) (event.Actor "bob")).
    discriminate.
Defined.

Lemma FindEvent_range_ext events (m m' : event.Matcher) acc :
  (forall e, event.Match m e = event.Match m' e) ->
  event.FindEvent_range events m acc = event.FindEvent_range events m' acc.
Proof.
  intros H. revert acc. induction events as [|e events IH]; intros acc; cbn.
  - reflexivity.
  - rewrite H. apply bind_ext. intros b. apply IH.
Qed.

Lemma FindEvent_range_compose events (m1 m2 : event.Matcher) :
  (r <- event.FindEvent_range events m1 (Some []) ;;
   event.FindEvent_range (elems r) m2 (Some []))
  = event.FindEvent_range events (event.And [m1; m2]) (Some []).
Proof.
  induction events as [|e events IH]; cbn; [reflexivity|].
  destruct (event.Match m1 e) as [[|]|]; cbn; [| exact IH | reflexivity].
  rewrite (FindEvent_range_acc events m1 [e]), bind_assoc. cbn.
  destruct (event.Match m2 e) as [[|]|]; cbn.
  - rewrite (FindEvent_range_acc events _ [e]), <- IH, bind_assoc.
    apply bind_ext. intros r. apply FindEvent_range_acc.
  - exact IH.
  - apply bind_panic.
Qed.

(** X11.  Filtering twice is filtering by the conjunction: running
    [FindEvent] with [m2] on the result of [FindEvent] with [m1] gives
    the outcome of one run with [And{m1, m2}], panics included; in
    particular filtering a result again with the same matcher changes
    nothing. *)
Theorem event_FindEvent_compose
    (events : Slice (option IssueEvent)) (m1 m2 : event.Matcher) :
  (r <- event.FindEvent events m1 ;; event.FindEvent r m2)
  = event.FindEvent events (event.And [m1; m2])
  /\ (r <- event.FindEvent events m1 ;; event.FindEvent r m1)
     = event.FindEvent events m1.
Proof.
  unfold event.FindEvent. split.
  - apply FindEvent_range_compose.
  - rewrite FindEvent_range_compose. apply FindEvent_range_ext.
    intros e. cbn. destruct (event.Match m1 e) as [[|]|]; reflexivity.
Qed.

Lemma FindEvent_range_app l1 l2 matcher acc :
  event.FindEvent_range (l1 ++ l2) matcher acc
  = (r <- event.FindEvent_range l1 matcher acc ;;
     event.FindEvent_range l2 matcher r).
Proof.
  revert acc. induction l1 as [|e l1 IH]; intros acc; cbn; [reflexivity|].
  rewrite bind_assoc. apply bind_ext. intros b. apply IH.
Qed.

(** X12.  [FindEvent] works element by element: on two sequences put
    end to end it gives the two results put end to end, and it panics
    when either part does. *)
Theorem event_FindEvent_app
    (l1 l2 : list (option IssueEvent)) (matcher : event.Matcher) :
  event.FindEvent (Some (l1 ++ l2)) matcher
  = (r1 <- event.FindEvent (Some l1) matcher ;;
     r2 <- event.FindEvent (Some l2) matcher ;;
     ret (Some (elems r1 ++ elems r2))).
Proof.
  unfold event.FindEvent. cbn [elems]. rewrite FindEvent_range_app.
  destruct (event.FindEvent_range l1 matcher (Some [])) as [r1|] eqn:E;
    cbn; [|reflexivity].
  destruct (@FindEvent_range_nonnil _ _ _ _ E) as [x ->].
  apply FindEvent_range_acc.
Qed.

Lemma filter_negb_Permutation {A} (f : A -> bool) (l : list A) :
  Permutation (filter f l ++ filter (fun a => negb (f a)) l) l.
Proof.
  induction l as [|a l IH]; cbn; [constructor|].
  destruct (f a); cbn.
  - now constructor.
  - apply Permutation_sym, Permutation_cons_app, Permutation_sym, IH.
Qed.

(** X13.  A matcher and its negation split the input: when the matcher
    returns a boolean on each element, [FindEvent] with [m] and
    [FindEvent] with [Not{m}] both return, and their results together
    are the input rearranged — every element lands in exactly one. *)
Theorem event_FindEvent_Not_partition
    (events : Slice (option IssueEvent)) (m : event.Matcher) :
  Forall (fun e => returns (event.Match m e)) (elems events) ->
  exists r1 r2,
    event.FindEvent events m = Returned (Some r1)
    /\ event.FindEvent events (event.Not m) = Returned (Some r2)
    /\ Permutation (r1 ++ r2) (elems events)
    /\ (List.length r1 + List.length r2 = List.length (elems events))%nat.
Proof.
  intros T. unfold event.FindEvent.
  rewrite (@FindEvent_range_filter _ _ [] T).
  assert (T' : Forall (fun e => returns (event.Match (event.Not m) e))
                      (elems events)).
  { eapply Forall_impl; [|exact T]. intros e [b Hb]. cbn.
    unfold event.Not_Match. rewrite Hb. eexists; reflexivity. }
  rewrite (@FindEvent_range_filter _ _ [] T'). cbn [app].
  assert (E : filter (fun e => holds (event.Match (event.Not m) e))
                     (elems events)
              = filter (fun e => negb (holds (event.Match m e)))
                       (elems events)).
  { apply filter_ext_in. intros e He.
    rewrite Forall_forall in T. destruct (T e He) as [b Hb]. cbn.
    unfold event.Not_Match. rewrite Hb. destruct b; reflexivity. }
  rewrite E. do 2 eexists. split; [reflexivity|]. split; [reflexivity|].
  split.
  - apply filter_negb_Permutation.
  - rewrite <- length_app. apply Permutation_length.
    apply filter_negb_Permutation.
Qed.

(** alice, bob, alice under [Actor "bob"]: one event on one side, two
    on the other. *)
Lemma event_FindEvent_Not_partition_witness :
  let by_ who := Some {| ID := Some 1;
                         Actor := Some {| Login := Some who |};
                         Event := None; CreatedAt := None;
                         EventLabel := None |} in
  exists r1 r2,
    event.FindEvent (Some [by_ "alice"; by_ "bob"; by_ "alice"])
                    (event.Actor "bob") = Returned (Some r1)
    /\ event.FindEvent (Some [by_ "alice"; by_ "bob"; by_ "alice"])
                       (event.Not (event.Actor "bob")) = Returned (Some r2)
    /\ (List.length r1 + List.length r2 = 3)%nat.
Proof.
  intros by_.
  destruct (event_FindEvent_Not_partition
              (Some [by_ "alice"; by_ "bob"; by_ "alice"])
              (event.Actor "bob")) as (r1 & r2 & H1 & H2 & _ & L).
  - repeat constructor; eexists; reflexivity.
  - exists r1, r2. repeat split; assumption.
Defined.

(* ================================================================= *)
(** ** More on package [main]: the client handle *)

Lemma length_zero_iff_empty (s : string) :
  Nat.eqb (String.length s) 0 = true <-> s = "".
Proof. destruct s; cbn; split; (reflexivity || discriminate). Qed.

(** X14.  Once [getGithubClient] has succeeded, calling it again gives
    the same handle and changes nothing, whatever the token file or the
    service have become in the meantime. *)
Theorem getGithubClient_memoized
    (svc svc' : Service) (w w0 : World) (c : GithubClient) :
  getGithubClient svc w = Done (Some c, None) w0 ->
  getGithubClient svc' w0 = Done (Some c, None) w0.
Proof.
  intros H. apply getGithubClient_ok in H as (Hc & _).
  now apply getGithubClient_memo.
Qed.

(** The fresh client of the examples, asked twice; the second time
    against a service whose token file reads differently. *)
Lemma getGithubClient_memoized_witness :
  exists w0,
    getGithubClient exampleService exampleWorld
    = Done (Some (NewClient (Some "t")), None) w0
    /\ getGithubClient pagedService w0
       = Done (Some (NewClient (Some "t")), None) w0.
Proof.
  eexists. split.
  - cbv. reflexivity.
  - apply (@getGithubClient_memoized exampleService pagedService
             exampleWorld).
    cbv. reflexivity.
Defined.

(** X15.  A token file that cannot be read.  With no handle yet, no
    token and a token file named, a read error is returned as it is by
    [getGithubClient], and [FetchIssues] and [FetchIssueEvents] return
    the nil list with that error at once: nothing is requested, nothing
    is memoized, the world is as before — for any number of loop steps
    allowed, none included. *)
Theorem token_file_error_surfaces
    (svc : Service) (w : World) (err : error) :
  githubClient (self w) = None ->
  Token (self w) = "" ->
  TokenFile (self w) <> "" ->
  ReadFile svc (TokenFile (self w)) = Err err ->
  getGithubClient svc w = Done (None, Some err) w
  /\ (forall fuel latest,
         FetchIssues svc fuel latest w = Done (None, Some err) w)
  /\ (forall fuel latest,
         FetchIssueEvents svc fuel latest w = Done (None, Some err) w).
Proof.
  intros Hc Ht Hf Hr.
  assert (G : getGithubClient svc w = Done (None, Some err) w).
  { unfold getGithubClient, seq, get. rewrite Hc, Ht. cbn.
    destruct (Nat.eqb (String.length (TokenFile (self w))) 0) eqn:E.
    - apply length_zero_iff_empty in E. contradiction.
    - cbn. rewrite Hr. reflexivity. }
  split; [exact G|]. split; intros fuel latest.
  - unfold FetchIssues, seq. rewrite G. reflexivity.
  - unfold FetchIssueEvents, seq. rewrite G. reflexivity.
Qed.

(** The client configured by token file, against the service of the
    first examples, where no file can be read. *)
Lemma token_file_error_surfaces_witness :
  FetchIssues exampleService 0 0 fileWorld
  = Done (None, Some "no such file") fileWorld
  /\ FetchIssueEvents exampleService 3 None fileWorld
     = Done (None, Some "no such file") fileWorld.
Proof.
  destruct (@token_file_error_surfaces exampleService fileWorld
              "no such file") as (_ & Hi & He);
    try reflexivity; try discriminate.
  split; [apply Hi | apply He].
Defined.

Lemma isSpace_below_128 (c : ascii) :
  strings.isSpace c = true -> Nat.ltb (nat_of_ascii c) 128 = true.
Proof.
  unfold strings.isSpace. generalize (nat_of_ascii c). intros n H.
  apply Nat.ltb_lt.
  destruct (Nat.leb_spec 9 n), (Nat.leb_spec n 13), (Nat.eqb_spec n 32);
    cbn in H; try discriminate; lia.
Qed.

Lemma allSpace_isASCII (s : string) :
  allSpace s = true -> strings.isASCII s = true.
Proof.
  induction s as [|c s IH]; cbn [allSpace strings.isASCII]; [reflexivity|].
  intros H. apply andb_true_iff in H as [Hc Hs].
  now rewrite (isSpace_below_128 c Hc), IH.
Qed.

Lemma isASCII_app (s t : string) :
  strings.isASCII (s ++ t)
  = (strings.isASCII s && strings.isASCII t)%bool.
Proof.
  induction s as [|c s IH]; cbn [strings.isASCII String.append];
    [reflexivity|].
  now rewrite IH, andb_assoc.
Qed.

Lemma trimLeft_allSpace (s : string) :
  allSpace s = true -> strings.trimLeft s = "".
Proof.
  induction s as [|c s IH]; cbn; [reflexivity|].
  intros H. apply andb_true_iff in H as [Hc Hs]. rewrite Hc. now apply IH.
Qed.

Lemma trimLeft_app (ws s : string) :
  allSpace ws = true -> strings.trimLeft (ws ++ s) = strings.trimLeft s.
Proof.
  induction ws as [|c ws IH]; cbn; [reflexivity|].
  intros H. apply andb_true_iff in H as [Hc Hs]. rewrite Hc. now apply IH.
Qed.

Lemma trimLeft_clean (s : string) :
  startsWithNonSpace s = true -> strings.trimLeft s = s.
Proof.
  destruct s as [|c s]; cbn; [discriminate|].
  intros H. apply negb_true_iff in H. now rewrite H.
Qed.

Lemma trimRight_allSpace (s : string) :
  allSpace s = true -> strings.trimRight s = "".
Proof.
  induction s as [|c s IH]; cbn; [reflexivity|].
  intros H. apply andb_true_iff in H as [Hc Hs].
  now rewrite (IH Hs), Hc.
Qed.

Lemma trimRight_app (s ws : string) :
  allSpace ws = true -> strings.trimRight (s ++ ws) = strings.trimRight s.
Proof.
  intros H. induction s as [|c s IH]; cbn.
  - now apply trimRight_allSpace.
  - now rewrite IH.
Qed.

Lemma trimRight_clean (s : string) :
  endsWithNonSpace s = true -> strings.trimRight s = s.
Proof.
  induction s as [|c s IH]; [discriminate|].
  destruct s as [|c' s].
  - cbn. intros H. apply negb_true_iff in H. now rewrite H.
  - intros H. change (endsWithNonSpace (String c' s) = true) in H.
    specialize (IH H). cbn [strings.trimRight] in *. now rewrite IH.
Qed.

(** On an ASCII string, [strings.TrimSpace] takes away the white space
    around a token that neither begins nor ends with white space, and
    leaves nothing of a string of white space. *)
Lemma TrimSpace_token (trimUnicode : string -> string) (ws1 tok ws2 : string) :
  allSpace ws1 = true -> allSpace ws2 = true ->
  strings.isASCII tok = true ->
  startsWithNonSpace tok = true -> endsWithNonSpace tok = true ->
  strings.TrimSpace trimUnicode (ws1 ++ tok ++ ws2) = tok.
Proof.
  intros H1 H2 Ha Hs He. unfold strings.TrimSpace.
  rewrite !isASCII_app, (allSpace_isASCII ws1 H1), (allSpace_isASCII ws2 H2),
    Ha. cbn [andb].
  rewrite (trimLeft_app ws1 _ H1).
  rewrite trimLeft_clean.
  - rewrite (trimRight_app tok ws2 H2). now apply trimRight_clean.
  - destruct tok; [discriminate Hs | exact Hs].
Qed.

Lemma TrimSpace_allSpace (trimUnicode : string -> string) (s : string) :
  allSpace s = true -> strings.TrimSpace trimUnicode s = "".
Proof.
  intros H. unfold strings.TrimSpace.
  now rewrite (allSpace_isASCII s H), (trimLeft_allSpace s H).
Qed.

(** X16.  Which handle is built, when none is memoized.  A token given
    directly is used and the token file is not read, whatever it holds.
    With neither token nor token file the handle is unauthenticated.
    With only a token file: when the file holds white space alone, the
    handle is unauthenticated; when it holds an ASCII token that
    neither begins nor ends with white space, with white space before
    and after it, the token is used without that white space.  In each
    case the handle is memoized. *)
Theorem getGithubClient_builds (svc : Service) (w : World) :
  githubClient (self w) = None ->
  (Token (self w) <> "" ->
   exists w0,
     getGithubClient svc w
     = Done (Some (NewClient (Some (Token (self w)))), None) w0
     /\ githubClient (self w0) = Some (NewClient (Some (Token (self w)))))
  /\ (Token (self w) = "" -> TokenFile (self w) = "" ->
      exists w0,
        getGithubClient svc w = Done (Some (NewClient None), None) w0
        /\ githubClient (self w0) = Some (NewClient None))
  /\ (forall data,
         Token (self w) = "" -> TokenFile (self w) <> "" ->
         ReadFile svc (TokenFile (self w)) = Ok data ->
         (allSpace data = true ->
          exists w0,
            getGithubClient svc w = Done (Some (NewClient None), None) w0
            /\ githubClient (self w0) = Some (NewClient None))
         /\ (forall ws1 tok ws2,
                data = (ws1 ++ tok ++ ws2)%string ->
                allSpace ws1 = true -> allSpace ws2 = true ->
                strings.isASCII tok = true ->
                startsWithNonSpace tok = true ->
                endsWithNonSpace tok = true ->
                exists w0,
                  getGithubClient svc w
                  = Done (Some (NewClient (Some tok)), None) w0
                  /\ githubClient (self w0) = Some (NewClient (Some tok)))).
Proof.
  intros Hc. unfold getGithubClient, seq, get. cbn. rewrite Hc.
  split; [|split].
  - intros Ht.
    destruct (Nat.eqb (String.length (Token (self w))) 0) eqn:E.
    + apply length_zero_iff_empty in E. contradiction.
    + cbn. destruct (Token (self w)) as [|ch tk]; [discriminate E|].
      cbn. eexists. split; reflexivity.
  - intros -> ->. cbn. eexists. split; reflexivity.
  - intros data -> Hf Hr.
    destruct (Nat.eqb (String.length (TokenFile (self w))) 0) eqn:E.
    + apply length_zero_iff_empty in E. contradiction.
    + cbn. rewrite Hr. split.
      * intros Hs. rewrite (TrimSpace_allSpace _ data Hs). cbn.
        eexists. split; reflexivity.
      * intros ws1 tok ws2 -> H1 H2 Ha Hs He.
        rewrite (TrimSpace_token _ ws1 tok ws2 H1 H2 Ha Hs He).
        destruct tok as [|ch tk]; [discriminate Hs|]. cbn.
        eexists. split; reflexivity.
Qed.

(** The client configured by token file: against the second service,
    whose token file holds white space only, and against a service
    whose token file holds a token between white space. *)
Lemma getGithubClient_builds_witness :
  (exists w0,
      getGithubClient pagedService fileWorld
      = Done (Some (NewClient None), None) w0)
  /\ (let svc := {| ReadFile := fun _ => Ok "  s3cr et
";
                    TrimUnicode := fun s => s;
                    RateLimitsEndpoint := fun _ _ => (None, None);
                    ListByRepo := fun _ _ _ _ _ => Err "unavailable";
                    ListRepositoryEvents := fun _ _ _ _ _ =>
                      Err "unavailable" |} in
      exists w0,
        getGithubClient svc fileWorld
        = Done (Some (NewClient (Some "s3cr et")), None) w0).
Proof.
  split.
  - destruct (@getGithubClient_builds pagedService fileWorld eq_refl)
      as (_ & _ & H).
    destruct (H "  
	 ") as [Hs _]; try reflexivity; try discriminate.
    destruct (Hs eq_refl) as (w0 & Hw & _). exists w0. exact Hw.
  - intros svc.
    destruct (@getGithubClient_builds svc fileWorld eq_refl) as (_ & _ & H).
    destruct (H "  s3cr et
") as [_ Ht]; try reflexivity; try discriminate.
    destruct (Ht "  " "s3cr et" "
") as (w0 & Hw & _); try reflexivity.
    exists w0. exact Hw.
Defined.

(* ================================================================= *)
(** ** More on package [main]: the rate-limit wait *)

Lemma limitsCheckAndWait_step (svc : Service) (w : World) :
  exists w',
    limitsCheckAndWait svc w = Done tt w'
    /\ now w <= now w'
    /\ issueCalls w' = issueCalls w
    /\ eventCalls w' = eventCalls w
    /\ (rateCalls w <= rateCalls w' <= S (rateCalls w))%nat
    /\ (forall c, githubClient (self w) = Some c -> self w' = self w).
Proof.
  unfold limitsCheckAndWait, getGithubClient, seq, get. cbn.
  destruct (githubClient (self w)) as [c|] eqn:Hc; cbn.
  - destruct (RateLimitsEndpoint svc (rateCalls w) c)
      as [[[[[lim rem reset]|] search]|] [err|]]; cbn;
      try (destruct (rem <? tokenLimit); cbn);
      eexists; (split; [reflexivity|]); cbn;
      repeat split; try lia; try (intros; reflexivity).
  - destruct (Nat.eqb (String.length (Token (self w))) 0
              && negb (Nat.eqb (String.length (TokenFile (self w))) 0))%bool;
      [destruct (ReadFile svc (TokenFile (self w))) as [data|err]|]; cbn.
    2: { eexists; (split; [reflexivity|]); cbn.
         repeat split; try lia; try discriminate. }
    all: match goal with
         | |- context [RateLimitsEndpoint ?s ?n ?c] =>
             destruct (RateLimitsEndpoint s n c)
               as [[[[[lim rem reset]|] search]|] [err|]]
         end; cbn;
      try (destruct (rem <? tokenLimit); cbn);
      eexists; (split; [reflexivity|]); cbn;
      repeat split; try lia; try discriminate.
Qed.

(** X17.  [limitsCheckAndWait] always comes back: from every state of
    the client, with or without a handle, readable token file or not,
    and whatever the probe answers.  It never sets the clock back,
    probes the rate limit at most once and sends no listing request. *)
Theorem limitsCheckAndWait_always_returns (svc : Service) (w : World) :
  exists w',
    limitsCheckAndWait svc w = Done tt w'
    /\ now w <= now w'
    /\ (rateCalls w <= rateCalls w' <= S (rateCalls w))%nat
    /\ issueCalls w' = issueCalls w
    /\ eventCalls w' = eventCalls w.
Proof.
  destruct (limitsCheckAndWait_step svc w) as (w' & E & Hn & Hi & He & Hr & _).
  exists w'. repeat split; (assumption || lia).
Qed.

(** X18.  Waiting for the quota.  With the handle in place, when the
    probe reports fewer than 50 requests left, the call sleeps for the
    time from now to the reported reset, as [Time.Sub] gives it — also
    when the probe reported an error along with the limits.  So it
    returns with the clock at the reset time, or where it was if that
    time has passed already; and when the reset lies farther ahead than
    the largest [Duration], the sleep is the largest [Duration]. *)
Theorem limitsCheckAndWait_waits_for_reset
    (svc : Service) (w : World) (c : GithubClient)
    (limits : RateLimits) (core : Rate) (err : option error) :
  githubClient (self w) = Some c ->
  RateLimitsEndpoint svc (rateCalls w) c = (Some limits, err) ->
  Core limits = Some core ->
  Remaining core < tokenLimit ->
  exists w',
    limitsCheckAndWait svc w = Done tt w'
    /\ now w' = now w + Z.max 0 (time.Sub (Reset core) (now w))
    /\ In (Slept (time.Sub (Reset core) (now w))) (trace w')
    /\ (Reset core - now w <= time.maxDuration ->
        now w' = Z.max (now w) (Reset core))
    /\ (time.maxDuration <= Reset core - now w ->
        now w' = now w + time.maxDuration).
Proof.
  intros Hc Hr Hcore Hrem.
  unfold limitsCheckAndWait, seq.
  rewrite (@getGithubClient_memo svc w c Hc). cbn. rewrite Hr.
  destruct limits as [co se]. cbn in Hcore. subst co.
  destruct core as [lim rem reset]. cbn in Hrem |- *.
  apply Z.ltb_lt in Hrem.
  destruct err as [e|]; cbn; rewrite Hrem; cbn;
    eexists; (split; [reflexivity|]); cbn;
    (split; [reflexivity|]);
    (split; [apply in_or_app; right; now left|]);
    unfold time.Sub, time.minDuration, time.maxDuration; split; lia.
Qed.

(** The second service reports 10 requests left until second 500: the
    memoized client comes back at second 500. *)
Lemma limitsCheckAndWait_waits_for_reset_witness :
  let w := {| self := {| Token := "t"; TokenFile := ""; Org := "kubernetes";
                         Project := "kubernetes";
                         githubClient := Some (NewClient (Some "t")) |};
              now := 20 * time.Second; rateCalls := 0; issueCalls := 0;
              eventCalls := 0; trace := [] |} in
  exists w',
    limitsCheckAndWait pagedService w = Done tt w'
    /\ now w' = 500 * time.Second.
Proof.
  intros w.
  destruct (@limitsCheckAndWait_waits_for_reset pagedService w
              (NewClient (Some "t"))
              {| Core := Some {| Limit := 5000; Remaining := 10;
                                 Reset := 500 * time.Second |};
                 Search := None |}
              {| Limit := 5000; Remaining := 10;
                 Reset := 500 * time.Second |} None)
    as (w' & E & _ & _ & Hn & _); try reflexivity.
  exists w'. split; [exact E|]. rewrite Hn; [reflexivity|].
  cbv. discriminate.
Defined.

(** X19.  The other waits.  With the handle in place and the quota not
    below 50 — or not reported — the call waits one minute when the
    probe failed and not at all when it succeeded.  And when no handle
    can be had because the token file cannot be read, it waits one
    minute without probing. *)
Theorem limitsCheckAndWait_fixed_waits (svc : Service) (w : World) :
  (forall c limits err,
      githubClient (self w) = Some c ->
      RateLimitsEndpoint svc (rateCalls w) c = (limits, err) ->
      (forall l core, limits = Some l -> Core l = Some core ->
                      tokenLimit <= Remaining core) ->
      exists w',
        limitsCheckAndWait svc w = Done tt w'
        /\ now w' = now w + (if isNil err then 0 else time.Minute))
  /\ (forall err,
      githubClient (self w) = None ->
      Token (self w) = "" ->
      TokenFile (self w) <> "" ->
      ReadFile svc (TokenFile (self w)) = Err err ->
      exists w',
        limitsCheckAndWait svc w = Done tt w'
        /\ now w' = now w + time.Minute
        /\ rateCalls w' = rateCalls w).
Proof.
  split.
  - intros c limits err Hc Hr Hq.
    unfold limitsCheckAndWait, seq.
    rewrite (@getGithubClient_memo svc w c Hc). cbn. rewrite Hr.
    destruct limits as [[[[lim rem reset]|] se]|].
    + specialize (Hq _ _ eq_refl eq_refl). cbn in Hq.
      apply Z.ltb_ge in Hq.
      destruct err as [e|]; cbn; rewrite Hq; cbn;
        eexists; (split; [reflexivity|]); cbn; lia.
    + destruct err as [e|]; cbn;
        eexists; (split; [reflexivity|]); cbn; lia.
    + destruct err as [e|]; cbn;
        eexists; (split; [reflexivity|]); cbn; lia.
  - intros err Hc Ht Hf Hr.
    unfold limitsCheckAndWait, getGithubClient, seq, get. cbn.
    rewrite Hc, Ht. cbn.
    destruct (Nat.eqb (String.length (TokenFile (self w))) 0) eqn:E.
    + apply length_zero_iff_empty in E. contradiction.
    + cbn. rewrite Hr. cbn. eexists. split; [reflexivity|].
      cbn. split; [lia | reflexivity].
Qed.

(** The first service reports 4000 requests left and no error: the
    memoized client does not wait.  And the client configured by token
    file, which cannot be read there, waits a minute. *)
Lemma limitsCheckAndWait_fixed_waits_witness :
  let w := {| self := {| Token := "t"; TokenFile := ""; Org := "kubernetes";
                         Project := "kubernetes";
                         githubClient := Some (NewClient (Some "t")) |};
              now := 20 * time.Second; rateCalls := 0; issueCalls := 0;
              eventCalls := 0; trace := [] |} in
  (exists w', limitsCheckAndWait exampleService w = Done tt w'
              /\ now w' = 20 * time.Second)
  /\ (exists w', limitsCheckAndWait exampleService fileWorld = Done tt w'
                 /\ now w' = time.Minute).
Proof.
  intros w. split.
  - destruct (limitsCheckAndWait_fixed_waits exampleService w) as [H _].
    destruct (H (NewClient (Some "t")) _ None eq_refl eq_refl)
      as (w' & E & Hn).
    + intros l core [= <-] [= <-]. cbv. discriminate.
    + exists w'. split; [exact E | exact Hn].
  - destruct (limitsCheckAndWait_fixed_waits exampleService fileWorld)
      as [_ H].
    destruct (H "no such file") as (w' & E & Hn & _);
      try reflexivity; try discriminate.
    exists w'. split; [exact E | exact Hn].
Defined.

(* ================================================================= *)
(** ** More on [FetchIssues] *)

Lemma elems_fold_append {A} (pages : list (list A)) (acc : Slice A) :
  elems (fold_left (@append A) pages acc) = elems acc ++ List.concat pages.
Proof.
  revert acc. induction pages as [|p pages IH]; intros acc; cbn.
  - now rewrite app_nil_r.
  - rewrite IH. destruct p; cbn; [reflexivity|].
    now rewrite <- app_assoc.
Qed.

Lemma fold_append_nil {A} (pages : list (list A)) :
  fold_left (@append A) pages None = None <-> List.concat pages = [].
Proof.
  assert (S : forall ps (l : list A),
             fold_left (@append A) ps (Some l) <> None).
  { induction ps as [|p ps IH]; intros l; cbn; [discriminate|].
    destruct p; apply IH. }
  induction pages as [|p pages IH]; cbn; [tauto|].
  destruct p as [|a p]; cbn; [exact IH|].
  split; [intros H; now apply S in H | discriminate].
Qed.

Lemma FetchIssues_loop_all_pages (svc : Service) (pages : list (list Issue)) :
  forall fuel w c allIssues opt,
    githubClient (self w) = Some c ->
    issuesSucceed svc c (Org (self w)) (Project (self w)) (issueCalls w)
                  opt pages ->
    (List.length pages <= fuel)%nat ->
    exists w',
      FetchIssues_loop svc fuel (Some c) allIssues opt w
      = Done (fold_left (@append Issue) pages allIssues, None) w'
      /\ issueCalls w' = (issueCalls w + List.length pages)%nat.
Proof.
  induction pages as [|page rest IH];
    intros fuel w c allIssues opt Hc Hs Hfuel; [contradiction|].
  destruct fuel as [|fuel]; [cbn in Hfuel; lia|].
  cbn [FetchIssues_loop].
  destruct (limitsCheckAndWait_ready svc w Hc) as (w1 & E1 & Us & Ui & Ue).
  unfold seq. rewrite E1. cbn.
  rewrite <- Us, <- Ui in Hs. rewrite <- Us in Hc.
  destruct Hs as (resp & Hl & Hp & Hrest). rewrite Hl.
  match goal with
  | |- context [printIssues page ?w2] =>
      destruct (@printIssues_printable page w2 Hp) as (w3 & E3 & Vs & Vi & Ve)
  end.
  rewrite E3. cbn in Vs, Vi, Ve.
  destruct rest as [|page' rest].
  - rewrite Hrest. cbn. eexists. split; [reflexivity|]. rewrite Vi. lia.
  - destruct Hrest as [Hn Hrest]. apply Z.eqb_neq in Hn. rewrite Hn.
    rewrite <- Vs in Hc, Hrest. rewrite <- Vi in Hrest.
    destruct (IH fuel w3 c (append allIssues page)
                 (setPage opt (NextPage resp)) Hc Hrest) as (w' & E' & C').
    + cbn in Hfuel |- *. lia.
    + exists w'. split; [exact E'|]. rewrite C', Vi. cbn. lia.
Qed.

(** X20.  The good run of [FetchIssues].  With the client handle
    obtained, when the service answers page after page until a page
    announces no next one, [FetchIssues] returns, with a nil error, the
    issues of all those pages in the order received, having asked for
    each announced page once; the list is nil exactly when all pages
    were empty. *)
Theorem FetchIssues_all_pages
    (svc : Service) (latest : time.Time) (w w0 : World) (c : GithubClient)
    (pages : list (list Issue)) (fuel : nat) :
  getGithubClient svc w = Done (Some c, None) w0 ->
  issuesSucceed svc c (Org (self w)) (Project (self w)) (issueCalls w)
                (issuesOptions latest) pages ->
  (List.length pages <= fuel)%nat ->
  exists s w',
    FetchIssues svc fuel latest w = Done (s, None) w'
    /\ elems s = List.concat pages
    /\ (s = None <-> List.concat pages = [])
    /\ issueCalls w' = (issueCalls w + List.length pages)%nat.
Proof.
  intros Hg Hs Hfuel.
  destruct (getGithubClient_ok svc w Hg) as (Hc & Ho & Hp & Hi & _).
  unfold FetchIssues, seq. rewrite Hg.
  rewrite <- Ho, <- Hp, <- Hi in Hs.
  destruct (@FetchIssues_loop_all_pages svc pages fuel w0 c None
              (issuesOptions latest) Hc Hs Hfuel) as (w' & E & C).
  exists (fold_left (@append Issue) pages None), w'.
  split; [exact E|]. split; [apply (elems_fold_append pages None)|].
  split; [apply fold_append_nil|]. rewrite C, Hi. reflexivity.
Qed.

(** The second service: page 0 announces page 2, page 2 announces the
    end; three issues come back after two requests. *)
Lemma FetchIssues_all_pages_witness :
  exists w',
    FetchIssues pagedService 2 0 exampleWorld
    = Done (Some [exampleIssue; secondIssue 13; secondIssue 14], None) w'
    /\ issueCalls w' = 2%nat.
Proof.
  destruct (@FetchIssues_all_pages pagedService 0 exampleWorld
              {| self := {| Token := "t"; TokenFile := "";
                            Org := "kubernetes"; Project := "kubernetes";
                            githubClient := Some (NewClient (Some "t")) |};
                 now := 0; rateCalls := 0; issueCalls := 0; eventCalls := 0;
                 trace := [] |}
              (NewClient (Some "t"))
              [[exampleIssue]; [secondIssue 13; secondIssue 14]] 2)
    as (s & w' & E & Hs & Hnil & C).
  - reflexivity.
  - cbn. eexists. split; [reflexivity|].
    split; [repeat constructor; discriminate|].
    split; [discriminate|].
    eexists. split; [reflexivity|].
    split; [repeat constructor; discriminate | reflexivity].
  - cbn. lia.
  - exists w'. split; [|exact C].
    rewrite E. destruct s as [l|]; cbn in Hs.
    + now rewrite Hs.
    + discriminate Hs.
Defined.

Lemma printIssues_crashes issues w :
  Exists (fun i => Number i = None \/ UpdatedAt i = None) issues ->
  printIssues issues w = Crash.
Proof.
  intros X. revert w. induction X as [i l H|i l _ IH]; intros w; cbn.
  - unfold seq. destruct i as [[n|] [u|] st lbs]; cbn in *;
      try reflexivity. destruct H; discriminate.
  - unfold seq. destruct i as [[n|] [u|] st lbs]; cbn; try reflexivity.
    apply IH.
Qed.

(** X21.  A page that cannot be printed.  [FetchIssues] prints number
    and update time of every issue of a page through their pointers;
    when an issue of the first page has a nil number or a nil update
    time, the run panics and returns nothing. *)
Theorem FetchIssues_unprintable_page_panics
    (svc : Service) (latest : time.Time) (w w0 : World) (c : GithubClient)
    (issues : list Issue) (resp : Response) (fuel : nat) :
  getGithubClient svc w = Done (Some c, None) w0 ->
  ListByRepo svc (issueCalls w) c (Org (self w)) (Project (self w))
             (issuesOptions latest) = Ok (issues, resp) ->
  Exists (fun i => Number i = None \/ UpdatedAt i = None) issues ->
  (0 < fuel)%nat ->
  FetchIssues svc fuel latest w = Crash.
Proof.
  intros Hg Hl Hx Hfuel.
  destruct (getGithubClient_ok svc w Hg) as (Hc & Ho & Hp & Hi & _).
  unfold FetchIssues, seq. rewrite Hg.
  destruct fuel as [|fuel]; [lia|]. cbn [FetchIssues_loop].
  destruct (limitsCheckAndWait_ready svc w0 Hc) as (w1 & E1 & Us & Ui & Ue).
  unfold seq. rewrite E1. cbn.
  unfold issuesOptions in Hl. rewrite Us, Ui, Ho, Hp, Hi, Hl.
  now rewrite printIssues_crashes.
Qed.

(** A service whose only page holds an issue without number. *)
Lemma FetchIssues_unprintable_page_panics_witness :
  let svc := {| ReadFile := fun _ => Err "no such file";
                TrimUnicode := fun s => s;
                RateLimitsEndpoint := fun _ _ => (None, None);
                ListByRepo := fun _ _ _ _ _ =>
                  Ok ([exampleIssue;
                       {| Number := None; UpdatedAt := Some 5;
                          github.State := None; Labels := [] |}],
                      {| NextPage := 0 |});
                ListRepositoryEvents := fun _ _ _ _ _ => Err "unavailable" |}
  in FetchIssues svc 4 0 exampleWorld = Crash.
Proof.
  intros svc.
  eapply (@FetchIssues_unprintable_page_panics svc 0 exampleWorld _
            (NewClient (Some "t")) _ {| NextPage := 0 |} 4).
  - cbv. reflexivity.
  - reflexivity.
  - right. left. left. reflexivity.
  - lia.
Defined.

(* ================================================================= *)
(** ** More on [FetchIssueEvents] *)

Lemma wasIdFound_found before ev after id :
  Forall (fun x => exists i, ID x = Some i /\ i <> id) before ->
  ID ev = Some id ->
  wasIdFound (before ++ ev :: after) id = Returned true.
Proof.
  intros F E. induction F as [|x l (i & Hi & Hn) _ IH]; cbn.
  - rewrite E. cbn. now rewrite Z.eqb_refl.
  - rewrite Hi. cbn. apply Z.eqb_neq in Hn. now rewrite Hn.
Qed.

Lemma wasIdFound_panics before ev after id :
  Forall (fun x => exists i, ID x = Some i /\ i <> id) before ->
  ID ev = None ->
  wasIdFound (before ++ ev :: after) id = Panic.
Proof.
  intros F E. induction F as [|x l (i & Hi & Hn) _ IH]; cbn.
  - now rewrite E.
  - rewrite Hi. cbn. apply Z.eqb_neq in Hn. now rewrite Hn.
Qed.

(** X22.  [wasIdFound].  On events that all carry an identifier it
    returns whether some event has the identifier looked for.  It reads
    the events in order and stops at the first hit: events after the
    hit are not looked at, so a nil identifier there does no harm,
    while a nil identifier before any hit makes it panic. *)
Theorem wasIdFound_spec (id : Z) :
  (forall events,
      Forall (fun ev => ID ev <> None) events ->
      decides (wasIdFound events id)
              (Exists (fun ev => ID ev = Some id) events))
  /\ (forall before ev after,
         Forall (fun x => exists i, ID x = Some i /\ i <> id) before ->
         (ID ev = Some id ->
          wasIdFound (before ++ ev :: after) id = Returned true)
         /\ (ID ev = None ->
             wasIdFound (before ++ ev :: after) id = Panic)).
Proof.
  split.
  - intros events F. induction F as [|ev l Hid _ IH]; cbn.
    + apply decides_ret. split; [discriminate | intros H; inversion H].
    + destruct (ID ev) as [i|] eqn:E; [|congruence]. cbn.
      destruct (Z.eqb_spec i id) as [->|N].
      * apply decides_ret. split; [intros _; now left | reflexivity].
      * destruct IH as (b & Hb & Hiff). exists b. split; [exact Hb|].
        rewrite Hiff. split; [now right|].
        intros H. inversion H; [congruence | assumption].
  - intros before ev after F. split; intros E.
    + now apply wasIdFound_found.
    + now apply wasIdFound_panics.
Qed.

(** Identifiers 41, 42, then an event without one: 42 is found, and
    looking for 43 runs into the event without identifier. *)
Lemma wasIdFound_spec_witness :
  let anon := {| ID := None; Actor := None; Event := None;
                 CreatedAt := None; EventLabel := None |} in
  wasIdFound [exampleEvent 41; exampleEvent 42; anon] 42 = Returned true
  /\ wasIdFound [exampleEvent 41; exampleEvent 42; anon] 43 = Panic
  /\ wasIdFound [exampleEvent 41; exampleEvent 42] 43 = Returned false.
Proof.
  intros anon. split; [|split].
  - destruct (wasIdFound_spec 42) as [_ H].
    destruct (H [exampleEvent 41] (exampleEvent 42) [anon]) as [Hf _].
    + repeat constructor. exists 41. split; [reflexivity | discriminate].
    + apply Hf. reflexivity.
  - destruct (wasIdFound_spec 43) as [_ H].
    destruct (H [exampleEvent 41; exampleEvent 42] anon []) as [_ Hp].
    + repeat constructor; eexists; (split; [reflexivity | discriminate]).
    + apply Hp. reflexivity.
  - destruct (wasIdFound_spec 43) as [H _].
    apply (@decides_false _ _ (H [exampleEvent 41; exampleEvent 42]
                                 ltac:(repeat constructor; discriminate))).
    intros X. inversion X as [? ? H1|? ? X1]; [discriminate H1|].
    inversion X1 as [? ? H2|? ? X2]; [discriminate H2 | inversion X2].
Defined.

Lemma getGithubClient_quiet (svc : Service) (w w0 : World) r :
  getGithubClient svc w = Done r w0 ->
  now w0 = now w /\ trace w0 = trace w /\ rateCalls w0 = rateCalls w.
Proof.
  unfold getGithubClient, seq, get. cbn.
  destruct (githubClient (self w)) as [c'|]; cbn.
  - intros [= _ <-]. repeat split.
  - destruct (Nat.eqb (String.length (Token (self w))) 0
              && negb (Nat.eqb (String.length (TokenFile (self w))) 0))%bool;
      [destruct (ReadFile svc (TokenFile (self w)))|]; cbn;
      intros [= _ <-]; repeat split.
Qed.

(** The loop up to the page: [k] failed requests cost a second each,
    then the termination check runs on the page that arrived. *)
Lemma FetchIssueEvents_loop_reaches_page (svc : Service) (k : nat) :
  forall fuel w c latest allEvents events resp,
    githubClient (self w) = Some c ->
    eventsPageAfter svc c (Org (self w)) (Project (self w)) eventsOptions
                    (eventCalls w) k events resp ->
    (k < fuel)%nat ->
    exists w1,
      FetchIssueEvents_loop svc fuel (Some c) latest allEvents eventsOptions w
      = seq (lift (ret (NextPage resp =? 0)
                   ||| (ret (notNil latest)
                        &&& (id <- deref latest ;;
                             wasIdFound events id)))%go)
            (fun stop => if stop then pure (append allEvents events, None)
                         else pure (append allEvents events, None)) w1
      /\ now w + Z.of_nat k * time.Second <= now w1
      /\ eventCalls w1 = (eventCalls w + k + 1)%nat.
Proof.
  induction k as [|k IH];
    intros fuel w c latest allEvents events resp Hc [Hfail Hpage] Hfuel;
    (destruct fuel as [|fuel]; [lia|]); cbn [FetchIssueEvents_loop];
    destruct (limitsCheckAndWait_step svc w)
      as (w1 & E1 & Hn & Ui & Ue & _ & Us);
    specialize (Us c Hc);
    unfold seq at 1 2 3 4 5; rewrite E1; cbn;
    rewrite <- Us, <- Ue in Hpage, Hfail; rewrite <- Us in Hc.
  - rewrite Nat.add_0_r in Hpage. rewrite Hpage.
    eexists. split; [reflexivity|]. cbn. split; lia.
  - destruct (Hfail 0%nat) as [err Herr]; [lia|].
    rewrite Nat.add_0_r in Herr. rewrite Herr. cbn.
    match goal with
    | |- context [FetchIssueEvents_loop svc fuel _ _ _ _ ?w2] =>
        destruct (IH fuel w2 c latest allEvents events resp)
          as (w' & E' & N' & C')
    end; cbn.
    + exact Hc.
    + split.
      * intros j Hj. destruct (Hfail (S j)) as [e He]; [lia|].
        exists e. rewrite <- He. f_equal. lia.
      * rewrite <- Hpage. f_equal. lia.
    + lia.
    + exists w'. split; [exact E'|]. cbn in N', C'.
      unfold time.Second in *. split; lia.
Qed.

Lemma limitsCheckAndWait_quiet (svc : Service) (w : World)
    (c : GithubClient) :
  githubClient (self w) = Some c ->
  quietProbes svc c ->
  exists w',
    limitsCheckAndWait svc w = Done tt w'
    /\ now w' = now w
    /\ self w' = self w
    /\ eventCalls w' = eventCalls w.
Proof.
  intros Hc Hq. unfold limitsCheckAndWait, seq.
  rewrite (@getGithubClient_memo svc w c Hc). cbn.
  destruct (Hq (rateCalls w)) as (limits & Hr & Hlim). rewrite Hr.
  destruct limits as [[[[lim rem reset]|] se]|]; cbn.
  - specialize (Hlim _ _ eq_refl eq_refl). cbn in Hlim.
    apply Z.ltb_ge in Hlim. rewrite Hlim. cbn.
    eexists. split; [reflexivity|]. cbn. repeat split. lia.
  - eexists. split; [reflexivity|]. cbn. repeat split. lia.
  - eexists. split; [reflexivity|]. cbn. repeat split. lia.
Qed.

(** The loop up to the page when the rate limit gives no cause to
    wait: the clock moves by the retry sleeps alone. *)
Lemma FetchIssueEvents_loop_quiet (svc : Service) (k : nat) :
  forall fuel w c latest allEvents events resp,
    githubClient (self w) = Some c ->
    quietProbes svc c ->
    eventsPageAfter svc c (Org (self w)) (Project (self w)) eventsOptions
                    (eventCalls w) k events resp ->
    (k < fuel)%nat ->
    exists w1,
      FetchIssueEvents_loop svc fuel (Some c) latest allEvents eventsOptions w
      = seq (lift (ret (NextPage resp =? 0)
                   ||| (ret (notNil latest)
                        &&& (id <- deref latest ;;
                             wasIdFound events id)))%go)
            (fun stop => if stop then pure (append allEvents events, None)
                         else pure (append allEvents events, None)) w1
      /\ now w1 = now w + Z.of_nat k * time.Second.
Proof.
  induction k as [|k IH];
    intros fuel w c latest allEvents events resp Hc Hq [Hfail Hpage] Hfuel;
    (destruct fuel as [|fuel]; [lia|]); cbn [FetchIssueEvents_loop];
    destruct (limitsCheckAndWait_quiet svc w c Hc Hq)
      as (w1 & E1 & Hn & Us & Ue);
    unfold seq at 1 2 3 4 5; rewrite E1; cbn;
    rewrite <- Us, <- Ue in Hpage, Hfail; rewrite <- Us in Hc.
  - rewrite Nat.add_0_r in Hpage. rewrite Hpage.
    eexists. split; [reflexivity|]. cbn. lia.
  - destruct (Hfail 0%nat) as [err Herr]; [lia|].
    rewrite Nat.add_0_r in Herr. rewrite Herr. cbn.
    match goal with
    | |- context [FetchIssueEvents_loop svc fuel _ _ _ _ ?w2] =>
        destruct (IH fuel w2 c latest allEvents events resp)
          as (w' & E' & N')
    end; cbn.
    + exact Hc.
    + exact Hq.
    + split.
      * intros j Hj. destruct (Hfail (S j)) as [e He]; [lia|].
        exists e. rewrite <- He. f_equal. lia.
      * rewrite <- Hpage. f_equal. lia.
    + lia.
    + exists w'. split; [exact E'|]. cbn in N'.
      unfold time.Second in *. lia.
Qed.

(** X23.  Retrying costs a second each time.  In a run of
    [FetchIssueEvents] whose page arrives after [k] failed requests,
    every failed request is followed by a sleep of one second before
    the same page is asked for again.  So the run ends no earlier than
    [k] seconds after it began; and when the rate limit gives no cause
    to wait, it ends exactly [k] seconds after it began. *)
Theorem FetchIssueEvents_retry_waits
    (svc : Service) (latest : option Z) (w w0 : World) (c : GithubClient)
    (k : nat) (events : list IssueEvent) (resp : Response) (fuel : nat) :
  getGithubClient svc w = Done (Some c, None) w0 ->
  eventsPageAfter svc c (Org (self w)) (Project (self w)) eventsOptions
                  (eventCalls w) k events resp ->
  (latest <> None -> NextPage resp <> 0 ->
   Forall (fun ev => ID ev <> None) events) ->
  (k < fuel)%nat ->
  exists r w',
    FetchIssueEvents svc fuel latest w = Done r w'
    /\ now w + Z.of_nat k * time.Second <= now w'
    /\ (quietProbes svc c ->
        now w' = now w + Z.of_nat k * time.Second).
Proof.
  intros Hg Hp Hid Hfuel.
  destruct (getGithubClient_ok svc w Hg) as (Hc & Ho & Hpr & _ & He).
  destruct (@getGithubClient_quiet svc w w0 _ Hg) as (Hn & _).
  unfold FetchIssueEvents, seq at 1. rewrite Hg.
  rewrite <- Ho, <- Hpr, <- He in Hp.
  destruct (@FetchIssueEvents_loop_reaches_page svc k fuel w0 c latest None
              events resp Hc Hp Hfuel) as (w1 & E & N & _).
  destruct (termination_check_returns latest events resp Hid) as [b Hb].
  assert (R : forall w2,
             seq (lift (ret (NextPage resp =? 0)
                        ||| (ret (notNil latest)
                             &&& (id <- deref latest ;;
                                  wasIdFound events id)))%go)
                 (fun stop =>
                    if stop then pure (append None events, @None error)
                    else pure (append None events, @None error)) w2
             = Done (append None events, @None error) w2).
  { intros w2. unfold seq. rewrite Hb. cbn. destruct b; reflexivity. }
  rewrite R in E. unfold eventsOptions in E. cbn. rewrite E.
  do 2 eexists. split; [reflexivity|]. split; [lia|].
  intros Hq.
  destruct (@FetchIssueEvents_loop_quiet svc k fuel w0 c latest None
              events resp Hc Hq Hp Hfuel) as (w1' & E' & N').
  rewrite R in E'. unfold eventsOptions in E'. rewrite E in E'.
  injection E' as <-. lia.
Qed.

(** The first example service fails once and never gives cause to wait
    for quota: the run takes exactly one second. *)
Lemma FetchIssueEvents_retry_waits_witness :
  exists r w',
    FetchIssueEvents exampleService 5 None exampleWorld = Done r w'
    /\ now w' = time.Second.
Proof.
  destruct (@FetchIssueEvents_retry_waits exampleService None exampleWorld
              {| self := {| Token := "t"; TokenFile := "";
                            Org := "kubernetes"; Project := "kubernetes";
                            githubClient := Some (NewClient (Some "t")) |};
                 now := 0; rateCalls := 0; issueCalls := 0; eventCalls := 0;
                 trace := [] |}
              (NewClient (Some "t")) 1
              [exampleEvent 41; exampleEvent 42] {| NextPage := 2 |} 5)
    as (r & w' & E & _ & N).
  - reflexivity.
  - split.
    + intros j Hj. exists "timeout". destruct j; [reflexivity | lia].
    + reflexivity.
  - intros H. now contradiction H.
  - lia.
  - exists r, w'. split; [exact E|]. rewrite N; [reflexivity|].
    intros n. eexists. split; [reflexivity|].
    intros l core [= <-] [= <-]. cbv. discriminate.
Defined.

(** X24.  An event without identifier.  When [latest] is given and the
    page that arrives announces a next page, the page is searched for
    [latest]; if an event with a nil identifier comes before any event
    carrying [latest], the run panics and returns nothing. *)
Theorem FetchIssueEvents_nil_id_panics
    (svc : Service) (id : Z) (w w0 : World) (c : GithubClient) (k : nat)
    (before after : list IssueEvent) (ev : IssueEvent) (resp : Response)
    (fuel : nat) :
  getGithubClient svc w = Done (Some c, None) w0 ->
  eventsPageAfter svc c (Org (self w)) (Project (self w)) eventsOptions
                  (eventCalls w) k (before ++ ev :: after) resp ->
  NextPage resp <> 0 ->
  Forall (fun x => exists i, ID x = Some i /\ i <> id) before ->
  ID ev = None ->
  (k < fuel)%nat ->
  FetchIssueEvents svc fuel (Some id) w = Crash.
Proof.
  intros Hg Hp Hnext Hb Hev Hfuel.
  destruct (getGithubClient_ok svc w Hg) as (Hc & Ho & Hpr & _ & He).
  unfold FetchIssueEvents, seq at 1. rewrite Hg.
  rewrite <- Ho, <- Hpr, <- He in Hp.
  destruct (@FetchIssueEvents_loop_reaches_page svc k fuel w0 c (Some id)
              None (before ++ ev :: after) resp Hc Hp Hfuel)
    as (w1 & E & _).
  unfold eventsOptions in E. cbn. rewrite E. unfold seq. cbn.
  apply Z.eqb_neq in Hnext. rewrite Hnext. cbn.
  now rewrite (@wasIdFound_panics before ev after id Hb Hev).
Qed.

(** A service whose page holds an event without identifier. *)
Lemma FetchIssueEvents_nil_id_panics_witness :
  let anon := {| ID := None; Actor := None; Event := None;
                 CreatedAt := None; EventLabel := None |} in
  let svc := {| ReadFile := fun _ => Err "no such file";
                TrimUnicode := fun s => s;
                RateLimitsEndpoint := fun _ _ => (None, None);
                ListByRepo := fun _ _ _ _ _ => Err "unavailable";
                ListRepositoryEvents := fun _ _ _ _ _ =>
                  Ok ([exampleEvent 41; anon], {| NextPage := 2 |}) |}
  in FetchIssueEvents svc 3 (Some 42) exampleWorld = Crash.
Proof.
  intros anon svc.
  eapply (@FetchIssueEvents_nil_id_panics svc 42 exampleWorld _
            (NewClient (Some "t")) 0 [exampleEvent 41] [] anon
            {| NextPage := 2 |} 3).
  - cbv. reflexivity.
  - split; [intros j Hj; lia | reflexivity].
  - discriminate.
  - repeat constructor. exists 41. split; [reflexivity | discriminate].
  - reflexivity.
  - lia.
Defined.

Lemma FetchIssueEvents_loop_starves (svc : Service) (c : GithubClient)
    (latest : option Z) (allEvents : Slice IssueEvent) (fuel : nat) :
  forall w,
    githubClient (self w) = Some c ->
    eventsAlwaysFail svc c (Org (self w)) (Project (self w)) eventsOptions ->
    FetchIssueEvents_loop svc fuel (Some c) latest allEvents eventsOptions w
    = OutOfFuel.
Proof.
  induction fuel as [|fuel IH]; intros w Hc Hf; [reflexivity|].
  cbn [FetchIssueEvents_loop].
  destruct (limitsCheckAndWait_ready svc w Hc) as (w1 & E1 & Us & Ui & Ue).
  unfold seq. rewrite E1. cbn.
  rewrite <- Us in Hc, Hf.
  destruct (Hf (eventCalls w1)) as [err Herr]. rewrite Herr. cbn.
  apply IH; cbn; assumption.
Qed.

(** X25.  No bound on retries.  With the client handle obtained, if
    the event listing fails on every request, [FetchIssueEvents] does
    not return within any number of loop steps, however large: it
    neither gives up nor reports the error. *)
Theorem FetchIssueEvents_retries_forever
    (svc : Service) (latest : option Z) (w w0 : World) (c : GithubClient) :
  getGithubClient svc w = Done (Some c, None) w0 ->
  eventsAlwaysFail svc c (Org (self w)) (Project (self w)) eventsOptions ->
  forall fuel, FetchIssueEvents svc fuel latest w = OutOfFuel.
Proof.
  intros Hg Hf fuel.
  destruct (getGithubClient_ok svc w Hg) as (Hc & Ho & Hpr & _).
  unfold FetchIssueEvents, seq. rewrite Hg.
  rewrite <- Ho, <- Hpr in Hf.
  now apply FetchIssueEvents_loop_starves.
Qed.

(** The second service, whose event listing is down: a thousand steps
    do not end the run. *)
Lemma FetchIssueEvents_retries_forever_witness :
  FetchIssueEvents pagedService 1000 None exampleWorld = OutOfFuel.
Proof.
  eapply (@FetchIssueEvents_retries_forever pagedService None exampleWorld
            _ (NewClient (Some "t"))).
  - cbv. reflexivity.
  - intros n. exists "unavailable". reflexivity.
Defined.
